(** * StlViewer: the high-polygon STL generator

    A shallow embedding of [Scripts/Python/src/high_polygon_stl_generator.py]
    and the properties of its two mesh generators,
    [create_directional_model] (the cone family) and
    [create_complex_oriented_terrain] (the terrain family).

    Conventions of the embedding.
    - Python [int] is [Z]; [//] and [%] by a positive literal are [Z.div]
      and [Z.modulo]; [range n] is [range n] below (empty for [n <= 0]).
    - Python [float] is the binary64 type [float] of the kernel; the
      functions [math.sin], [math.cos], [np.sin], [np.cos] come from the C
      library and are taken as a parameter [L : libm].
    - [int (math.sqrt (n / 10))] is read over the reals, [Z.sqrt (n / 10)],
      with the [ValueError] of [math.sqrt] on a negative argument; the
      binary64 evaluation is [f64_int_sqrt_tenth] and is compared with it on
      the inputs the properties name.
    - a Python list that is only appended to is a [list], [append] adds at
      the end; an exception is the [Err] of a [result].
    - console printing is left out. *)

From Stdlib Require Import ZArith List Lia Bool String Floats.
Import ListNotations.

Set Warnings "-inexact-float".
Open Scope Z_scope.

(** ** Exceptions *)

Inductive py_error : Type :=
| ValueError
| IndexError
| OverflowError.

Inductive result (A : Type) : Type :=
| Ok (a : A)
| Err (e : py_error).
Arguments Ok {A} a.
Arguments Err {A} e.

Definition bind {A B : Type} (r : result A) (k : A -> result B) : result B :=
  match r with
  | Ok a => k a
  | Err e => Err e
  end.

Notation "x <- r ;; k" := (bind r (fun x => k))
  (at level 61, r at next level, right associativity).
Notation "' pat <- r ;; k" :=
  (bind r (fun x => match x with pat => k end))
  (at level 61, pat pattern, r at next level, right associativity).

(** [for x in l: s = body x s], where the body may raise. *)
Fixpoint for_M {A S : Type} (l : list A) (body : A -> S -> result S) (s : S)
  : result S :=
  match l with
  | [] => Ok s
  | x :: l' => s' <- body x s ;; for_M l' body s'
  end.

(** [for x in l: s = body x s], where the body cannot raise. *)
Definition for_ {A S : Type} (l : list A) (body : A -> S -> S) (s : S) : S :=
  fold_left (fun s x => body x s) l s.

Definition range (n : Z) : list Z := map Z.of_nat (seq 0 (Z.to_nat n)).

Definition len {A : Type} (l : list A) : Z := Z.of_nat (List.length l).

(** ** Floating point *)

(** [float (z)]: the nearest binary64 value, ties to even. *)
Definition float_of_int (z : Z) : float :=
  SF2Prim (binary_normalize prec emax z 0 false).




(** [int (math.sqrt (n / 10))] over the reals: the integer square root of
    the floored quotient, and [ValueError] when [n / 10] is negative. *)
Definition int_sqrt_tenth (n : Z) : result Z :=
  if n <? 0 then Err ValueError else Ok (Z.sqrt (n / 10)).

(** The C library's trigonometric functions, as [math] and [numpy] call
    them. *)
Record libm : Type := {
  math_sin : float -> float;
  math_cos : float -> float;
  np_sin : float -> float;
  np_cos : float -> float
}.

Definition math_pi : float := 3.141592653589793%float.

(** ** The vertex and face buffers *)

Definition point : Type := (float * float * float)%type.
Definition face : Type := (Z * Z * Z)%type.

Record mesh : Type := {
  vertices : list point;
  faces : list face
}.

Definition empty_mesh : mesh := {| vertices := []; faces := [] |}.

(** [vertices.append (p)] *)
Definition append_vertex (p : point) (m : mesh) : mesh :=
  {| vertices := vertices m ++ [p]; faces := faces m |}.

(** [faces.append ([a, b, c])] *)
Definition append_face (f : face) (m : mesh) : mesh :=
  {| vertices := vertices m; faces := faces m ++ [f] |}.

(** [[face[0] + off, face[1] + off, face[2] + off]] *)
Definition shift_face (off : Z) (f : face) : face :=
  let '(a, b, c) := f in (a + off, b + off, c + off).

(** The four vertices and two triangles of one texture cell:
    [v_idx = len (vertices)], four appends, then the faces
    [[v_idx, v_idx + 1, v_idx + 2]] and [[v_idx + 1, v_idx + 3, v_idx + 2]]. *)
Definition append_quad (p1 p2 p3 p4 : point) (m : mesh) : mesh :=
  let v_idx := len (vertices m) in
  let m := append_vertex p1 m in
  let m := append_vertex p2 m in
  let m := append_vertex p3 m in
  let m := append_vertex p4 m in
  let m := append_face (v_idx, v_idx + 1, v_idx + 2) m in
  append_face (v_idx + 1, v_idx + 3, v_idx + 2) m.

(** ** The output file *)

Definition triangle : Type := (point * point * point)%type.

(** What [stl_mesh.vectors] holds when it is saved: one triple of points
    per face. *)
Definition stl_file : Type := list triangle.

(** [a[i]] on a numpy array of rows: a negative index counts from the end,
    an index out of range raises. *)
Definition np_getitem {A : Type} (a : list A) (i : Z) : result A :=
  let i' := if i <? 0 then i + len a else i in
  if (i' <? 0) || (len a <=? i') then Err IndexError
  else match nth_error a (Z.to_nat i') with
       | Some x => Ok x
       | None => Err IndexError
       end.

(** [for i, face in enumerate (faces): for j in range (3):
      stl_mesh.vectors[i][j] = vertices[face[j]]] *)
Definition resolve_face (vs : list point) (f : face) : result triangle :=
  let '(a, b, c) := f in
  pa <- np_getitem vs a ;;
  pb <- np_getitem vs b ;;
  pc <- np_getitem vs c ;;
  Ok (pa, pb, pc).

Fixpoint resolve_faces (vs : list point) (fs : list face)
  : result stl_file :=
  match fs with
  | [] => Ok []
  | f :: fs' =>
      t <- resolve_face vs f ;;
      ts <- resolve_faces vs fs' ;;
      Ok (t :: ts)
  end.

(** The part of the machine a run can change: the files on disk, and how
    many vertex/face buffer pairs have been created. *)
Record world : Type := {
  disk : string -> option stl_file;
  buffers : nat
}.

(** [vertices = []; faces = []] *)
Definition alloc_buffers (w : world) : world :=
  {| disk := disk w; buffers := S (buffers w) |}.

(** [stl_mesh.save (filename)] *)
Definition save (filename : string) (c : stl_file) (w : world) : world :=
  {| disk := fun f => if String.eqb f filename then Some c else disk w f;
     buffers := buffers w |}.

(** ** The cone family: [create_directional_model] *)

Section Generators.

Variable L : libm.

Local Abbreviation sin := (math_sin L).
Local Abbreviation cos := (math_cos L).

(** [a / b] on two ints (true division), for operands that are binary64
    values; the divisor is a loop bound that is positive where this is
    used. *)
Definition true_div (a b : Z) : float := (float_of_int a / float_of_int b)%float.

Definition cone_height : float := 15.0%float.
Definition cone_radius : float := 8.0%float.

(** The rim vertex of step [i] (lines 42-55): a circle of radius
    [cone_radius] with the radial noise [0.5 * sin (10 * theta)]. *)
Definition cone_rim_point (resolution i : Z) : point :=
  let theta := (2 * math_pi * float_of_int i / float_of_int resolution)%float in
  let x := (cone_radius * cos theta)%float in
  let y := (cone_radius * sin theta)%float in
  let z := 0%float in
  let noise_amplitude := 0.5%float in
  let noise := (noise_amplitude * sin (10 * theta))%float in
  let x := (x + noise * cos theta)%float in
  let y := (y + noise * sin theta)%float in
  (x, y, z).

(** Lines 36-72: the tip, the rim, the side faces, the centre of the base
    and the base faces. *)
Definition cone_body (resolution vertex_offset : Z) (m : mesh) : mesh :=
  let m := append_vertex (0, 0, cone_height)%float m in
  let m := for_ (range resolution)
             (fun i m => append_vertex (cone_rim_point resolution i) m) m in
  let m := for_ (range resolution)
             (fun i m =>
                let p1 := 0 + vertex_offset in
                let p2 := 1 + i + vertex_offset in
                let p3 := 1 + ((i + 1) mod resolution) + vertex_offset in
                append_face (p1, p2, p3) m) m in
  let m := append_vertex (0, 0, 0)%float m in
  let center_idx := len (vertices m) - 1 in
  for_ (range resolution)
    (fun i m =>
       let p1 := center_idx in
       let p2 := 1 + ((i + 1) mod resolution) + vertex_offset in
       let p3 := 1 + i + vertex_offset in
       append_face (p1, p2, p3) m) m.

(** Lines 82-90, 112-120 and 142-150: the five vertices of each axis
    marker. *)
Definition x_vertices : list point :=
  let x_length := 12.0%float in
  let x_width := 1.0%float in
  [ (cone_radius, x_width, x_width);
    (cone_radius, - x_width, x_width);
    (cone_radius, - x_width, - x_width);
    (cone_radius, x_width, - x_width);
    (cone_radius + x_length, 0, 0) ]%float.

Definition y_vertices : list point :=
  let y_length := 12.0%float in
  let y_width := 1.0%float in
  [ (y_width, cone_radius, y_width);
    (- y_width, cone_radius, y_width);
    (- y_width, cone_radius, - y_width);
    (y_width, cone_radius, - y_width);
    (0, cone_radius + y_length, 0) ]%float.

Definition z_vertices : list point :=
  let z_length := 12.0%float in
  let z_width := 1.0%float in
  [ (z_width, z_width, cone_height);
    (- z_width, z_width, cone_height);
    (- z_width, - z_width, cone_height);
    (z_width, - z_width, cone_height);
    (0, 0, cone_height + z_length) ]%float.

(** Lines 96-103, 126-133 and 156-163: [x_faces], [y_faces] and [z_faces]
    are the same list. *)
Definition x_faces : list face :=
  [ (0, 1, 4); (1, 2, 4); (2, 3, 4); (3, 0, 4); (0, 3, 1); (1, 3, 2) ].
Definition y_faces : list face := x_faces.
Definition z_faces : list face := x_faces.

(** [for v in vs: vertices.append (v)] then
    [for face in fs: faces.append ([face[0] + vertex_offset, ...])]. *)
Definition axis_marker (vs : list point) (fs : list face)
    (vertex_offset : Z) (m : mesh) : mesh :=
  let m := for_ vs append_vertex m in
  for_ fs (fun face m => append_face (shift_face vertex_offset face) m) m.

(** Lines 196-228: the four corners of the cell [(j, k)] of arrow [i]. *)
Definition arrow_cell (arrow_resolution detail_res i j k : Z)
  : point * point * point * point :=
  let arrow_height := (cone_height * 0.7)%float in
  let arrow_width := (cone_radius * 0.5)%float in
  let angle :=
    (2 * math_pi * float_of_int i / float_of_int arrow_resolution)%float in
  let center_x := (cone_radius * 0.8 * cos angle)%float in
  let center_y := (cone_radius * 0.8 * sin angle)%float in
  let center_z := (cone_height * 0.3)%float in
  let t1 := true_div j detail_res in
  let t2 := true_div (j + 1) detail_res in
  let s1 := true_div k detail_res in
  let s2 := true_div (k + 1) detail_res in
  let width_factor1 := (1.0 - t1)%float in
  let width_factor2 := (1.0 - t2)%float in
  let p1 :=
    (center_x + arrow_width * width_factor1 * (s1 - 0.5) * cos angle,
     center_y + arrow_width * width_factor1 * (s1 - 0.5) * sin angle,
     center_z + t1 * arrow_height)%float in
  let p2 :=
    (center_x + arrow_width * width_factor1 * (s2 - 0.5) * cos angle,
     center_y + arrow_width * width_factor1 * (s2 - 0.5) * sin angle,
     center_z + t1 * arrow_height)%float in
  let p3 :=
    (center_x + arrow_width * width_factor2 * (s1 - 0.5) * cos angle,
     center_y + arrow_width * width_factor2 * (s1 - 0.5) * sin angle,
     center_z + t2 * arrow_height)%float in
  let p4 :=
    (center_x + arrow_width * width_factor2 * (s2 - 0.5) * cos angle,
     center_y + arrow_width * width_factor2 * (s2 - 0.5) * sin angle,
     center_z + t2 * arrow_height)%float in
  (p1, p2, p3, p4).

(** Lines 181-239: the arrow patches. *)
Definition arrow_patches (base_resolution : Z) (m : mesh) : mesh :=
  let arrow_resolution := base_resolution / 10 in
  for_ (range arrow_resolution)
    (fun i m =>
       let detail_res := base_resolution / 20 in
       for_ (range detail_res)
         (fun j m =>
            for_ (range detail_res)
              (fun k m =>
                 let '(p1, p2, p3, p4) :=
                   arrow_cell arrow_resolution detail_res i j k in
                 append_quad p1 p2 p3 p4 m) m) m) m.

(** Lines 253-282: the four corners of the spiral cell [(i, j)]. *)
Definition spiral_cell (spiral_res_theta spiral_res_phi i j : Z)
  : point * point * point * point :=
  let phi := (math_pi * float_of_int i / float_of_int spiral_res_phi)%float in
  let radius_at_phi := (cone_radius * (1 - phi / math_pi))%float in
  let z_at_phi := (cone_height * phi / math_pi)%float in
  let theta :=
    (2 * math_pi * float_of_int j / float_of_int spiral_res_theta
     + phi * 10)%float in
  let x1 := (radius_at_phi * cos theta)%float in
  let y1 := (radius_at_phi * sin theta)%float in
  let z1 := z_at_phi in
  let theta2 :=
    (2 * math_pi * float_of_int (j + 1) / float_of_int spiral_res_theta
     + phi * 10)%float in
  let x2 := (radius_at_phi * cos theta2)%float in
  let y2 := (radius_at_phi * sin theta2)%float in
  let z2 := z_at_phi in
  let phi2 :=
    (math_pi * float_of_int (i + 1) / float_of_int spiral_res_phi)%float in
  let radius_at_phi2 := (cone_radius * (1 - phi2 / math_pi))%float in
  let z_at_phi2 := (cone_height * phi2 / math_pi)%float in
  let x3 := (radius_at_phi2 * cos theta)%float in
  let y3 := (radius_at_phi2 * sin theta)%float in
  let z3 := z_at_phi2 in
  let x4 := (radius_at_phi2 * cos theta2)%float in
  let y4 := (radius_at_phi2 * sin theta2)%float in
  let z4 := z_at_phi2 in
  ((x1, y1, z1), (x2, y2, z2), (x3, y3, z3), (x4, y4, z4)).

(** Lines 252-293: the two loops of the texture fill. *)
Definition spiral_fill (spiral_res_theta spiral_res_phi : Z) (m : mesh)
  : mesh :=
  for_ (range spiral_res_phi)
    (fun i m =>
       for_ (range spiral_res_theta)
         (fun j m =>
            let '(p1, p2, p3, p4) :=
              spiral_cell spiral_res_theta spiral_res_phi i j in
            append_quad p1 p2 p3 p4 m) m) m.

(** Lines 28-239: the stages every run goes through, on the empty
    buffers. *)
Definition fixed_stages (base_resolution : Z) : mesh :=
  let m := empty_mesh in
  let vertex_offset := 0 in
  let resolution := base_resolution in
  let m := cone_body resolution vertex_offset m in
  let vertex_offset := len (vertices m) in
  let m := axis_marker x_vertices x_faces vertex_offset m in
  let vertex_offset := len (vertices m) in
  let m := axis_marker y_vertices y_faces vertex_offset m in
  let vertex_offset := len (vertices m) in
  let m := axis_marker z_vertices z_faces vertex_offset m in
  arrow_patches base_resolution m.

(** Lines 243-293: the texture fill on what is left of the target. *)
Definition texture_fill (num_triangles : Z) (m : mesh) : result mesh :=
  let remaining_triangles := num_triangles - len (faces m) in
  if remaining_triangles >? 0 then
    spiral_res_theta <- int_sqrt_tenth remaining_triangles ;;
    let spiral_res_phi := spiral_res_theta * 10 in
    Ok (spiral_fill spiral_res_theta spiral_res_phi m)
  else Ok m.

(** The buffers of [create_directional_model] when it reaches line 295. *)
Definition directional_mesh (base_resolution num_triangles : Z)
  : result mesh :=
  texture_fill num_triangles (fixed_stages base_resolution).

(** Lines 295-317 (and 509-531): fill [stl_mesh.vectors], save, and return
    [len (faces)]. *)
Definition save_mesh (filename : string) (m : mesh) (w : world)
  : world * result Z :=
  match resolve_faces (vertices m) (faces m) with
  | Err e => (w, Err e)
  | Ok stl => (save filename stl w, Ok (len (faces m)))
  end.

Definition create_directional_model (filename : string) (num_triangles : Z)
    (w : world) : world * result Z :=
  match int_sqrt_tenth num_triangles with
  | Err e => (w, Err e)
  | Ok base_resolution =>
      let w := alloc_buffers w in
      match directional_mesh base_resolution num_triangles with
      | Err e => (w, Err e)
      | Ok m => save_mesh filename m w
      end
  end.

(** ** numpy arrays, as the terrain generator uses them *)

(** A one-dimensional array of doubles. *)
Record vector : Type := {
  size : Z;
  elem : Z -> float
}.

(** A two-dimensional array of doubles, with its shape. *)
Record ndarray : Type := {
  shape : Z * Z;
  item : Z -> Z -> float
}.

(** [np.linspace (start, stop, num)]: a negative [num] raises; the samples
    are [i * step + start] with [step = (stop - start) / (num - 1)], and the
    last one is [stop] itself when [num > 1]. *)
Definition np_linspace (start stop : float) (num : Z) : result vector :=
  if num <? 0 then Err ValueError
  else
    let div := num - 1 in
    let delta := (stop - start)%float in
    Ok {| size := num;
          elem := fun i =>
            if (1 <? num) && (i =? num - 1) then stop
            else if 0 <? div then
              let step := (delta / float_of_int div)%float in
              (float_of_int i * step + start)%float
            else (float_of_int i * delta + start)%float |}.

(** [np.meshgrid (x, y)]: both results have shape [(len (y), len (x))]. *)
Definition np_meshgrid (x y : vector) : ndarray * ndarray :=
  ({| shape := (size y, size x); item := fun _ j => elem x j |},
   {| shape := (size y, size x); item := fun i _ => elem y i |}).

(** [np.zeros ((d0, d1))] *)
Definition np_zeros (s : Z * Z) : result ndarray :=
  if (fst s <? 0) || (snd s <? 0) then Err ValueError
  else Ok {| shape := s; item := fun _ _ => 0%float |}.

(** An elementwise function, and an array with a scalar. *)
Definition np_map (f : float -> float) (a : ndarray) : ndarray :=
  {| shape := shape a; item := fun i j => f (item a i j) |}.

(** Broadcasting of one dimension: equal sizes, or one of them is 1. *)
Definition broadcast_dim (a b : Z) : result Z :=
  if a =? b then Ok a
  else if a =? 1 then Ok b
  else if b =? 1 then Ok a
  else Err ValueError.

Definition broadcast_shape (s t : Z * Z) : result (Z * Z) :=
  d0 <- broadcast_dim (fst s) (fst t) ;;
  d1 <- broadcast_dim (snd s) (snd t) ;;
  Ok (d0, d1).

(** The index read in a dimension of size [d] that is broadcast. *)
Definition bidx (d i : Z) : Z := if d =? 1 then 0 else i.

Definition item_b (a : ndarray) (i j : Z) : float :=
  item a (bidx (fst (shape a)) i) (bidx (snd (shape a)) j).

(** [a op b] elementwise, with broadcasting. *)
Definition np_binop (op : float -> float -> float) (a b : ndarray)
  : result ndarray :=
  s <- broadcast_shape (shape a) (shape b) ;;
  Ok {| shape := s; item := fun i j => op (item_b a i j) (item_b b i j) |}.

Definition shape_eqb (s t : Z * Z) : bool :=
  (fst s =? fst t) && (snd s =? snd t).

(** [z += a]: the broadcast shape has to be the shape of [z]. *)
Definition np_iadd (z a : ndarray) : result ndarray :=
  s <- broadcast_shape (shape z) (shape a) ;;
  if shape_eqb s (shape z)
  then Ok {| shape := shape z;
             item := fun i j => (item z i j + item_b a i j)%float |}
  else Err ValueError.

(** The index [i] in a dimension of size [d]: negative indices count from
    the end. *)
Definition norm_index (d i : Z) : result Z :=
  let i' := if i <? 0 then i + d else i in
  if (i' <? 0) || (d <=? i') then Err IndexError else Ok i'.

(** [a[i, j]] *)
Definition np_item (a : ndarray) (i j : Z) : result float :=
  i' <- norm_index (fst (shape a)) i ;;
  j' <- norm_index (snd (shape a)) j ;;
  Ok (item a i' j').

(** ** The terrain family: [create_complex_oriented_terrain] *)

(** Lines 344-354: the grids; [z_grid] is created with shape
    [(width, height)] and the grids of [np.meshgrid] are added to it. *)
Definition terrain_grids (width height : Z)
  : result (ndarray * ndarray * ndarray) :=
  x <- np_linspace (-10) 10 width ;;
  y <- np_linspace (-10) 10 height ;;
  let '(x_grid, y_grid) := np_meshgrid x y in
  z_grid <- np_zeros (width, height) ;;
  z_grid <- for_M [1; 2; 3; 5; 8; 13]
    (fun freq z_grid =>
       let f := float_of_int freq in
       t <- np_binop PrimFloat.mul
              (np_map (np_sin L) (np_map (fun v => v * f)%float x_grid))
              (np_map (np_cos L) (np_map (fun v => v * f)%float y_grid)) ;;
       np_iadd z_grid (np_map (fun v => v / f)%float t)) z_grid ;;
  z_grid <- np_iadd z_grid (np_map (fun v => v * 0.1)%float y_grid) ;;
  Ok (x_grid, y_grid, z_grid).

(** Lines 357-359: one vertex per grid point, row by row. *)
Definition grid_vertices (x_grid y_grid z_grid : ndarray) (width height : Z)
    (m : mesh) : result mesh :=
  for_M (range height)
    (fun i m =>
       for_M (range width)
         (fun j m =>
            x <- np_item x_grid i j ;;
            y <- np_item y_grid i j ;;
            z <- np_item z_grid i j ;;
            Ok (append_vertex (x, y, z) m)) m) m.

(** Lines 362-371: two triangles per grid cell. *)
Definition grid_faces (width height : Z) (m : mesh) : mesh :=
  for_ (range (height - 1))
    (fun i m =>
       for_ (range (width - 1))
         (fun j m =>
            let p1 := i * width + j in
            let p2 := p1 + 1 in
            let p3 := (i + 1) * width + j in
            let p4 := p3 + 1 in
            let m := append_face (p1, p2, p3) m in
            append_face (p2, p4, p3) m) m) m.

(** Lines 411-421 *)
Definition marker_faces : list face :=
  [ (0, 2, 1); (0, 3, 2);
    (0, 1, 5); (0, 5, 4);
    (1, 2, 6); (1, 6, 5);
    (2, 3, 7); (2, 7, 6);
    (3, 0, 4); (3, 4, 7);
    (4, 5, 6); (4, 6, 7) ].

(** Lines 389-424: the pylon at one corner. *)
Definition corner_marker (c : point) (m : mesh) : mesh :=
  let '(cx, cy, cz) := c in
  let marker_height := 2.0%float in
  let marker_size := 1.0%float in
  let marker_base :=
    [ (cx - marker_size / 2, cy - marker_size / 2, cz);
      (cx + marker_size / 2, cy - marker_size / 2, cz);
      (cx + marker_size / 2, cy + marker_size / 2, cz);
      (cx - marker_size / 2, cy + marker_size / 2, cz);
      (cx - marker_size / 2, cy - marker_size / 2, cz + marker_height);
      (cx + marker_size / 2, cy - marker_size / 2, cz + marker_height);
      (cx + marker_size / 2, cy + marker_size / 2, cz + marker_height);
      (cx - marker_size / 2, cy + marker_size / 2, cz + marker_height)
    ]%float in
  let v_idx := len (vertices m) in
  let m := for_ marker_base append_vertex m in
  for_ marker_faces (fun face m => append_face (shift_face v_idx face) m) m.

(** Lines 380-424: the four corner heights, then the four pylons. *)
Definition corner_markers (z_grid : ndarray) (m : mesh) : result mesh :=
  z_sw <- np_item z_grid 0 0 ;;
  z_se <- np_item z_grid 0 (-1) ;;
  z_nw <- np_item z_grid (-1) 0 ;;
  z_ne <- np_item z_grid (-1) (-1) ;;
  let corners :=
    [ (-10, -10, z_sw); (10, -10, z_se); (-10, 10, z_nw); (10, 10, z_ne)
    ]%float in
  Ok (for_ corners corner_marker m).

(** Lines 430-468: the arrow at the centre; [base_vertices_idx] is the list
    the two fans index. *)
Definition central_arrow (z_grid : ndarray) (width height : Z) (m : mesh)
  : result mesh :=
  let arrow_resolution := 20 in
  let arrow_radius := 2.0%float in
  let arrow_height := 3.0%float in
  let arrow_center_x := 0%float in
  let arrow_center_y := 0%float in
  arrow_base_z <- np_item z_grid (height / 2) (width / 2) ;;
  let center_vertex_idx := len (vertices m) in
  let m := append_vertex (arrow_center_x, arrow_center_y, arrow_base_z) m in
  let '(m, base_vertices_idx) :=
    for_ (range arrow_resolution)
      (fun i '(m, base_vertices_idx) =>
         let theta :=
           (2 * math_pi * float_of_int i
            / float_of_int arrow_resolution)%float in
         let x := (arrow_center_x + arrow_radius * cos theta)%float in
         let y := (arrow_center_y + arrow_radius * sin theta)%float in
         let m := append_vertex (x, y, arrow_base_z) m in
         (m, base_vertices_idx ++ [len (vertices m) - 1])) (m, []) in
  let tip_vertex_idx := len (vertices m) in
  let m :=
    append_vertex
      (arrow_center_x, arrow_center_y + arrow_radius * 2,
       arrow_base_z + arrow_height)%float m in
  m <- for_M (range arrow_resolution)
    (fun i m =>
       a <- np_getitem base_vertices_idx i ;;
       b <- np_getitem base_vertices_idx ((i + 1) mod arrow_resolution) ;;
       Ok (append_face (center_vertex_idx, a, b) m)) m ;;
  for_M (range arrow_resolution)
    (fun i m =>
       a <- np_getitem base_vertices_idx i ;;
       b <- np_getitem base_vertices_idx ((i + 1) mod arrow_resolution) ;;
       Ok (append_face (tip_vertex_idx, a, b) m)) m.

(** Lines 474-507: the two axis lines. *)
Definition axis_lines (z_grid : ndarray) (width height : Z) (m : mesh)
  : result mesh :=
  let axis_width := 0.3%float in
  let axis_height := 0.5%float in
  zx0 <- np_item z_grid (height / 2) 0 ;;
  zx1 <- np_item z_grid (height / 2) (-1) ;;
  let x_axis_points :=
    ((-9.5, 0, zx0 + axis_height), (9.5, 0, zx1 + axis_height))%float in
  zy0 <- np_item z_grid 0 (width / 2) ;;
  zy1 <- np_item z_grid (-1) (width / 2) ;;
  let y_axis_points :=
    ((0, -9.5, zy0 + axis_height), (0, 9.5, zy1 + axis_height))%float in
  let '((ax, ay, az), (bx, b_y, bz)) := x_axis_points in
  let x_start_idx := len (vertices m) in
  let m := append_vertex (ax, ay - axis_width, az)%float m in
  let m := append_vertex (ax, ay + axis_width, az)%float m in
  let m := append_vertex (bx, b_y - axis_width, bz)%float m in
  let m := append_vertex (bx, b_y + axis_width, bz)%float m in
  let m := append_face (x_start_idx, x_start_idx + 1, x_start_idx + 2) m in
  let m :=
    append_face (x_start_idx + 1, x_start_idx + 3, x_start_idx + 2) m in
  let '((ax, ay, az), (bx, b_y, bz)) := y_axis_points in
  let y_start_idx := len (vertices m) in
  let m := append_vertex (ax - axis_width, ay, az)%float m in
  let m := append_vertex (ax + axis_width, ay, az)%float m in
  let m := append_vertex (bx - axis_width, b_y, bz)%float m in
  let m := append_vertex (bx + axis_width, b_y, bz)%float m in
  let m := append_face (y_start_idx, y_start_idx + 1, y_start_idx + 2) m in
  Ok (append_face (y_start_idx + 1, y_start_idx + 3, y_start_idx + 2) m).

(** The buffers after the grid stage (lines 335-371). *)
Definition terrain_body (width height : Z)
  : result (ndarray * mesh) :=
  '(x_grid, y_grid, z_grid) <- terrain_grids width height ;;
  m <- grid_vertices x_grid y_grid z_grid width height empty_mesh ;;
  Ok (z_grid, grid_faces width height m).

(** The buffers of [create_complex_oriented_terrain] when it reaches
    line 509. *)
Definition terrain_mesh (width height : Z) : result mesh :=
  '(z_grid, m) <- terrain_body width height ;;
  m <- corner_markers z_grid m ;;
  m <- central_arrow z_grid width height m ;;
  axis_lines z_grid width height m.

Definition create_complex_oriented_terrain (filename : string)
    (width height : Z) (w : world) : world * result Z :=
  let w := alloc_buffers w in
  match terrain_mesh width height with
  | Err e => (w, Err e)
  | Ok m => save_mesh filename m w
  end.

End Generators.


(** A libm to run the generators with: sine and cosine as their series cut
    after four terms.  The properties below are stated for every [libm]. *)
Definition series_sin (x : float) : float :=
  (x - x * x * x / 6 + x * x * x * x * x / 120
   - x * x * x * x * x * x * x / 5040)%float.
Definition series_cos (x : float) : float :=
  (1 - x * x / 2 + x * x * x * x / 24 - x * x * x * x * x * x / 720)%float.
Definition series_libm : libm :=
  {| math_sin := series_sin; math_cos := series_cos;
     np_sin := series_sin; np_cos := series_cos |}.


(** ** The properties of a mesh *)

(** Every index of the face is an index into [n] vertices. *)
Definition face_in_range (n : Z) (f : face) : Prop :=
  let '(a, b, c) := f in 0 <= a < n /\ 0 <= b < n /\ 0 <= c < n.

(** The three indices of the face are pairwise different. *)
Definition face_distinct (f : face) : Prop :=
  let '(a, b, c) := f in a <> b /\ b <> c /\ a <> c.

Definition index_valid (m : mesh) : Prop :=
  Forall (face_in_range (len (vertices m))) (faces m).

Definition non_degenerate (m : mesh) : Prop :=
  Forall face_distinct (faces m).

(** The two faces [append_quad] emits on [v] vertices. *)
Definition quad_faces (v : Z) : list face :=
  [ (v, v + 1, v + 2); (v + 1, v + 3, v + 2) ].

(** The faces of [n] texture cells appended from vertex [v] on: cell [k]
    owns the vertices [v + 4 k .. v + 4 k + 3]. *)
Definition quad_strip (v n : Z) : list face :=
  flat_map (fun k => quad_faces (v + 4 * k)) (range n).

(** The two faces of the grid cell in row [i] and column [j]. *)
Definition cell_faces (width i j : Z) : list face :=
  let p1 := i * width + j in
  let p2 := p1 + 1 in
  let p3 := (i + 1) * width + j in
  let p4 := p3 + 1 in
  [ (p1, p2, p3); (p2, p4, p3) ].



(** ** The command line: the [__main__] block *)

(** What [parser.parse_args ()] returns (lines 551-562); [--type] is one of
    the strings ["cone"] and ["terrain"]. *)
Record cli_args : Type := {
  arg_type : string;
  arg_output : string;
  arg_triangles : Z;
  arg_width : Z;
  arg_height : Z
}.

(** The defaults of the five options. *)
Definition default_args : cli_args :=
  {| arg_type := "cone";
     arg_output := "directional_model.stl";
     arg_triangles := 10000000;
     arg_width := 3000;
     arg_height := 3000 |}.


(** ** More properties of a mesh *)

(** Every index of the face is in [[lo, hi)]. *)
Definition face_between (lo hi : Z) (f : face) : Prop :=
  let '(a, b, c) := f in lo <= a < hi /\ lo <= b < hi /\ lo <= c < hi.

(** Lines 349-354 at one grid point: the sum over the six frequencies, in
    the order of the loop, then the tilt to the north. *)
Definition terrain_height (L : libm) (x y : float) : float :=
  let z :=
    fold_left
      (fun z freq =>
         let f := float_of_int freq in
         (z + np_sin L (x * f) * np_cos L (y * f) / f)%float)
      [1; 2; 3; 5; 8; 13] 0%float in
  (z + y * 0.1)%float.

(** [m'] is [m] with [dv] more vertices and [df] more faces, and the new
    faces index only the vertices from [lo] on. *)
Definition adds_from (lo dv df : Z) (m m' : mesh) : Prop :=
  exists fs,
    (0 <= dv /\ len (vertices m') = len (vertices m) + dv
     /\ faces m' = faces m ++ fs)
    /\ len fs = df
    /\ Forall (face_between lo (len (vertices m) + dv)) fs.

(** ** Notions the proofs use *)

(** The numbers of vertices and of faces. *)
Definition nv (m : mesh) : Z := len (vertices m).

Definition nf (m : mesh) : Z := len (faces m).

(** [m'] is [m] with [dv] more vertices and the faces [fs] appended. *)
Definition extends (m m' : mesh) (dv : Z) (fs : list face) : Prop :=
  0 <= dv /\ nv m' = nv m + dv /\ faces m' = faces m ++ fs.

(** [m'] is [m] with [n] texture cells appended. *)
Definition quads (n : Z) (m m' : mesh) : Prop :=
  0 <= n /\ extends m m' (4 * n) (quad_strip (nv m) n).

(** The side face and the base face of step [i]; the tip is the vertex
    [off] and the centre of the base the vertex [c]. *)
Definition side_face (r off i : Z) : face :=
  (0 + off, 1 + i + off, 1 + ((i + 1) mod r) + off).

Definition cap_face (r off c i : Z) : face :=
  (c, 1 + ((i + 1) mod r) + off, 1 + i + off).

Definition cone_faces (r off : Z) : list face :=
  map (side_face r off) (range r)
  ++ map (cap_face r off (off + Z.max 0 r + 1)) (range r).




(** What one pass of the frequency loop does to [z_grid]. *)
Definition add_frequency (L : libm) (x_grid y_grid : ndarray) (freq : Z)
    (z_grid : ndarray) : result ndarray :=
  let f := float_of_int freq in
  t <- np_binop PrimFloat.mul
         (np_map (np_sin L) (np_map (fun v => v * f)%float x_grid))
         (np_map (np_cos L) (np_map (fun v => v * f)%float y_grid)) ;;
  np_iadd z_grid (np_map (fun v => v / f)%float t).

(** [m'] is [m] with [dv] more vertices and [df] more faces, each of
    them with indices in range and pairwise different. *)
Definition grows (dv df : Z) (m m' : mesh) : Prop :=
  exists fs, extends m m' dv fs /\ len fs = df
             /\ Forall (face_in_range (nv m')) fs
             /\ Forall face_distinct fs.

(** The faces of the grid stage, cell by cell, row by row. *)
Definition grid_cells (width height : Z) : list face :=
  flat_map (fun i => flat_map (fun j => cell_faces width i j)
                       (range (width - 1)))
    (range (height - 1)).

(** The indices of a face. *)
Definition face_indices (f : face) : list Z :=
  let '(a, b, c) := f in [a; b; c].

(** * Proofs *)

(** ** Lists, ranges and loops *)

Lemma len_app {A : Type} (l1 l2 : list A) : len (l1 ++ l2) = len l1 + len l2.
Proof. unfold len. rewrite length_app. lia. Qed.

Lemma len_cons {A : Type} (x : A) (l : list A) : len (x :: l) = 1 + len l.
Proof. unfold len. simpl List.length. lia. Qed.

Lemma len_nonneg {A : Type} (l : list A) : 0 <= len l.
Proof. unfold len. lia. Qed.

Lemma len_map {A B : Type} (f : A -> B) (l : list A) : len (map f l) = len l.
Proof. unfold len. now rewrite length_map. Qed.

Lemma len_range (n : Z) : len (range n) = Z.max 0 n.
Proof. unfold len, range. rewrite length_map, length_seq. lia. Qed.

Lemma in_range (n i : Z) : In i (range n) <-> 0 <= i < n.
Proof.
  unfold range. rewrite in_map_iff. split.
  - intros [k [<- Hk]]. apply in_seq in Hk. lia.
  - intros Hi. exists (Z.to_nat i). split; [lia |]. apply in_seq. lia.
Qed.

(** Lengths of literal lists and of concatenations. *)
Ltac len_norm :=
  repeat (rewrite len_app || rewrite len_cons || rewrite len_map);
  repeat match goal with
         | |- context [len (@nil ?A)] => change (len (@nil A)) with 0
         end.

Lemma for_nil {A S : Type} (body : A -> S -> S) (s : S) : for_ [] body s = s.
Proof. reflexivity. Qed.

Lemma for_cons {A S : Type} (x : A) (l : list A) (body : A -> S -> S) (s : S) :
  for_ (x :: l) body s = for_ l body (body x s).
Proof. reflexivity. Qed.

Lemma for_app {A S : Type} (l1 l2 : list A) (body : A -> S -> S) (s : S) :
  for_ (l1 ++ l2) body s = for_ l2 body (for_ l1 body s).
Proof. unfold for_. apply fold_left_app. Qed.

(** A loop whose every iteration returns, returns. *)
Lemma for_M_total {A S : Type} (P : S -> Prop) (l : list A)
    (body : A -> S -> result S) :
  (forall x s, In x l -> P s -> exists s', body x s = Ok s' /\ P s') ->
  forall s, P s -> exists s', for_M l body s = Ok s' /\ P s'.
Proof.
  induction l as [| x l IH]; intros Hbody s Hs; simpl.
  - now exists s.
  - destruct (Hbody x s (or_introl eq_refl) Hs) as [t [Ht HPt]].
    rewrite Ht. simpl.
    apply IH; [| exact HPt]. intros y u Hy. apply Hbody. now right.
Qed.

(** ** Buffers that only grow *)

Lemma nv_nonneg (m : mesh) : 0 <= nv m.
Proof. apply len_nonneg. Qed.

Lemma extends_refl (m : mesh) : extends m m 0 [].
Proof. unfold extends. rewrite app_nil_r. repeat split; lia. Qed.

Lemma extends_trans (m1 m2 m3 : mesh) (d1 d2 : Z) (f1 f2 : list face) :
  extends m1 m2 d1 f1 -> extends m2 m3 d2 f2 ->
  extends m1 m3 (d1 + d2) (f1 ++ f2).
Proof.
  intros (H1 & H2 & H3) (H4 & H5 & H6). unfold extends.
  rewrite H6, H3, H5, H2, app_assoc. repeat split; lia.
Qed.

Lemma extends_eq (m m' : mesh) (d d' : Z) (fs fs' : list face) :
  extends m m' d fs -> d = d' -> fs = fs' -> extends m m' d' fs'.
Proof. now intros H <- <-. Qed.

Lemma extends_append_vertex (p : point) (m : mesh) :
  extends m (append_vertex p m) 1 [].
Proof.
  unfold extends, nv, append_vertex. cbn [vertices faces].
  len_norm. rewrite app_nil_r. repeat split; lia.
Qed.

Lemma extends_append_face (f : face) (m : mesh) :
  extends m (append_face f m) 0 [f].
Proof.
  unfold extends, nv, append_face. cbn [vertices faces]. repeat split; lia.
Qed.

Lemma extends_append_quad (p1 p2 p3 p4 : point) (m : mesh) :
  extends m (append_quad p1 p2 p3 p4 m) 4 (quad_faces (nv m)).
Proof.
  unfold extends, nv, append_quad, append_face, append_vertex, quad_faces.
  cbn [vertices faces]. len_norm. rewrite <- !app_assoc.
  repeat split; lia.
Qed.

(** A loop of vertex appends. *)
Lemma for_vertices {A : Type} (l : list A) (body : A -> mesh -> mesh) :
  (forall x m, exists p, body x m = append_vertex p m) ->
  forall m, extends m (for_ l body m) (len l) [].
Proof.
  intros Hbody. induction l as [| x l IH]; intros m.
  - rewrite for_nil. len_norm. apply extends_refl.
  - rewrite for_cons, len_cons. destruct (Hbody x m) as [p Hp]. rewrite Hp.
    eapply extends_eq;
      [exact (extends_trans _ _ _ _ _ _ _ (extends_append_vertex p m) (IH _))
      | reflexivity | reflexivity ].
Qed.

(** A loop that appends the faces [F x], whatever the buffers hold. *)
Lemma for_faces {A : Type} (F : A -> list face) (l : list A)
    (body : A -> mesh -> mesh) :
  (forall x m, extends m (body x m) 0 (F x)) ->
  forall m, extends m (for_ l body m) 0 (flat_map F l).
Proof.
  intros Hbody. induction l as [| x l IH]; intros m.
  - rewrite for_nil. apply extends_refl.
  - rewrite for_cons. simpl flat_map.
    exact (extends_trans _ _ _ _ _ _ _ (Hbody x m) (IH _)).
Qed.

(** ** Strips of texture cells *)

Lemma seq_from (a b : nat) : seq a b = map (Nat.add a) (seq 0 b).
Proof.
  induction a as [| a IH].
  - simpl. now rewrite map_id.
  - rewrite <- seq_shift, IH, map_map. reflexivity.
Qed.

Lemma range_shift (a b : Z) :
  0 <= a -> 0 <= b -> range (a + b) = range a ++ map (Z.add a) (range b).
Proof.
  intros Ha Hb. unfold range.
  replace (Z.to_nat (a + b)) with (Z.to_nat a + Z.to_nat b)%nat by lia.
  rewrite seq_app, map_app. f_equal. simpl.
  rewrite seq_from, !map_map. apply map_ext. intros k. lia.
Qed.

Lemma quad_strip_app (v a b : Z) :
  0 <= a -> 0 <= b ->
  quad_strip v (a + b) = quad_strip v a ++ quad_strip (v + 4 * a) b.
Proof.
  intros Ha Hb. unfold quad_strip.
  rewrite range_shift, flat_map_app by assumption. f_equal.
  rewrite flat_map_concat_map, map_map, <- flat_map_concat_map.
  apply flat_map_ext. intros k. f_equal. lia.
Qed.

Lemma quad_strip_one (v : Z) : quad_strip v 1 = quad_faces v.
Proof.
  unfold quad_strip. change (range 1) with [0]. cbn [flat_map].
  rewrite app_nil_r. f_equal. lia.
Qed.

Lemma quads_trans (a b : Z) (m1 m2 m3 : mesh) :
  quads a m1 m2 -> quads b m2 m3 -> quads (a + b) m1 m3.
Proof.
  intros [Ha H1] [Hb H2]. split; [lia |].
  assert (Hnv : nv m2 = nv m1 + 4 * a) by apply H1.
  rewrite Hnv in H2.
  eapply extends_eq; [exact (extends_trans _ _ _ _ _ _ _ H1 H2) | lia |].
  symmetry. now apply quad_strip_app.
Qed.

Lemma quads_append (p1 p2 p3 p4 : point) (m : mesh) :
  quads 1 m (append_quad p1 p2 p3 p4 m).
Proof.
  split; [lia |]. rewrite quad_strip_one. apply extends_append_quad.
Qed.

(** A loop whose every iteration appends [c] cells. *)
Lemma for_quads {A : Type} (c : Z) (l : list A) (body : A -> mesh -> mesh) :
  0 <= c ->
  (forall x m, In x l -> quads c m (body x m)) ->
  forall m, quads (c * len l) m (for_ l body m).
Proof.
  intros Hc. induction l as [| x l IH]; intros Hbody m.
  - rewrite for_nil. len_norm. replace (c * 0) with 0 by lia.
    split; [lia |]. apply extends_refl.
  - rewrite for_cons, len_cons.
    replace (c * (1 + len l)) with (c + c * len l) by lia.
    eapply quads_trans; [apply Hbody; now left |].
    apply IH. intros y u Hy. apply Hbody. now right.
Qed.

Lemma flat_map_single {A B : Type} (f : A -> B) (l : list A) :
  flat_map (fun x => [f x]) l = map f l.
Proof. induction l as [| x l IH]; [reflexivity |]. simpl. now rewrite IH. Qed.

Lemma len_flat_map {A B : Type} (F : A -> list B) (c : Z) (l : list A) :
  (forall x, In x l -> len (F x) = c) -> len (flat_map F l) = c * len l.
Proof.
  induction l as [| x l IH]; intros HF.
  - simpl. len_norm. lia.
  - simpl flat_map. rewrite len_app, len_cons.
    rewrite HF by now left.
    rewrite IH by (intros y Hy; apply HF; now right). lia.
Qed.

Lemma len_quad_strip (v n : Z) : 0 <= n -> len (quad_strip v n) = 2 * n.
Proof.
  intros Hn. unfold quad_strip.
  rewrite (len_flat_map _ 2) by reflexivity. rewrite len_range. lia.
Qed.

(** ** Index validity and distinct indices, piece by piece *)

Lemma face_in_range_mono (n n' : Z) (f : face) :
  n <= n' -> face_in_range n f -> face_in_range n' f.
Proof. destruct f as [[a b] c]. unfold face_in_range. lia. Qed.

Lemma index_valid_extends (m m' : mesh) (dv : Z) (fs : list face) :
  extends m m' dv fs -> index_valid m ->
  Forall (face_in_range (nv m')) fs -> index_valid m'.
Proof.
  intros (Hdv & Hnv & Hfs) Hm Hnew. unfold index_valid. rewrite Hfs.
  apply Forall_app. split; [| exact Hnew].
  eapply Forall_impl; [| exact Hm]. intros f.
  apply face_in_range_mono. fold (nv m) (nv m'). lia.
Qed.

Lemma non_degenerate_extends (m m' : mesh) (dv : Z) (fs : list face) :
  extends m m' dv fs -> non_degenerate m ->
  Forall face_distinct fs -> non_degenerate m'.
Proof.
  intros (_ & _ & Hfs) Hm Hnew. unfold non_degenerate. rewrite Hfs.
  apply Forall_app. now split.
Qed.





Lemma nf_extends (m m' : mesh) (dv : Z) (fs : list face) :
  extends m m' dv fs -> nf m' = nf m + len fs.
Proof. intros (_ & _ & Hfs). unfold nf. now rewrite Hfs, len_app. Qed.

Lemma nf_quads (n : Z) (m m' : mesh) : quads n m m' -> nf m' = nf m + 2 * n.
Proof.
  intros [Hn He]. rewrite (nf_extends _ _ _ _ He).
  now rewrite len_quad_strip.
Qed.

Lemma nv_quads (n : Z) (m m' : mesh) : quads n m m' -> nv m' = nv m + 4 * n.
Proof. intros [_ (_ & Hnv & _)]. exact Hnv. Qed.

(** ** The stages of the cone generator *)

Section ConeStages.

Variable L : libm.

Lemma cone_body_extends (r : Z) (m : mesh) :
  extends m (cone_body L r (nv m) m) (Z.max 0 r + 2) (cone_faces r (nv m)).
Proof.
  unfold cone_body. cbv zeta.
  set (m1 := append_vertex _ m).
  set (m2 := for_ _ _ m1).
  set (m3 := for_ _ _ m2).
  set (m4 := append_vertex _ m3).
  assert (E1 : extends m m1 1 []) by apply extends_append_vertex.
  assert (E2 : extends m1 m2 (len (range r)) []).
  { apply for_vertices. intros x u. eexists. reflexivity. }
  assert (E3 : extends m2 m3 0
                 (flat_map (fun i => [side_face r (nv m) i]) (range r))).
  { apply for_faces. intros x u. apply extends_append_face. }
  assert (E4 : extends m3 m4 1 []) by apply extends_append_vertex.
  pose proof (extends_trans _ _ _ _ _ _ _
                (extends_trans _ _ _ _ _ _ _
                   (extends_trans _ _ _ _ _ _ _ E1 E2) E3) E4) as E.
  assert (Hc : len (vertices m4) - 1 = nv m + Z.max 0 r + 1).
  { destruct E as (_ & Hnv & _). fold (nv m4). rewrite Hnv, len_range. lia. }
  rewrite Hc.
  assert (E5 : extends m4
                 (for_ (range r)
                    (fun i u =>
                       append_face
                         (nv m + Z.max 0 r + 1,
                          1 + (i + 1) mod r + nv m, 1 + i + nv m) u) m4) 0
                 (flat_map
                    (fun i => [cap_face r (nv m) (nv m + Z.max 0 r + 1) i])
                    (range r))).
  { apply for_faces. intros x u. apply extends_append_face. }
  eapply extends_eq; [exact (extends_trans _ _ _ _ _ _ _ E E5) | |].
  - rewrite len_range. lia.
  - unfold cone_faces. rewrite !flat_map_single. simpl.
    now rewrite app_nil_r.
Qed.



(** With two rim vertices or more, step [i] and step [(i + 1) % r] are
    different vertices. *)
Lemma next_rim_differs (r i : Z) : 2 <= r -> 0 <= i < r -> (i + 1) mod r <> i.
Proof.
  intros Hr Hi. destruct (Z.eq_dec (i + 1) r) as [E | E].
  - rewrite E, Z.mod_same by lia. lia.
  - rewrite Z.mod_small by lia. lia.
Qed.


Lemma axis_marker_extends (vs : list point) (fs : list face) (m : mesh) :
  extends m (axis_marker vs fs (nv m) m) (len vs)
    (map (shift_face (nv m)) fs).
Proof.
  unfold axis_marker. cbv zeta.
  set (m1 := for_ vs append_vertex m).
  assert (E1 : extends m m1 (len vs) []).
  { apply for_vertices. intros x u. eexists. reflexivity. }
  assert (E2 : extends m1
                 (for_ fs (fun face u => append_face (shift_face (nv m) face) u)
                    m1) 0
                 (flat_map (fun face => [shift_face (nv m) face]) fs)).
  { apply for_faces. intros x u. apply extends_append_face. }
  eapply extends_eq; [exact (extends_trans _ _ _ _ _ _ _ E1 E2) | lia |].
  now rewrite flat_map_single.
Qed.




Lemma spiral_fill_quads (s : Z) (m : mesh) :
  0 <= s -> quads (10 * (s * s)) m (spiral_fill L s (s * 10) m).
Proof.
  intros Hs. unfold spiral_fill.
  replace (10 * (s * s)) with (s * len (range (s * 10)))
    by (rewrite len_range; lia).
  apply for_quads; [lia |]. intros i u _.
  replace s with (1 * len (range s)) at 1 by (rewrite len_range; lia).
  apply for_quads; [lia |]. intros j u' _.
  destruct (spiral_cell L s (s * 10) i j) as [[[p1 p2] p3] p4].
  apply quads_append.
Qed.










Lemma texture_fill_runs (T : Z) (m : mesh) :
  0 < T - nf m ->
  texture_fill L T m
  = Ok (spiral_fill L (Z.sqrt ((T - nf m) / 10))
          (Z.sqrt ((T - nf m) / 10) * 10) m).
Proof.
  intros HR. unfold texture_fill. cbv zeta. fold (nf m).
  destruct (T - nf m >? 0) eqn:E; [| lia].
  unfold int_sqrt_tenth. destruct (T - nf m <? 0) eqn:E'; [lia |].
  reflexivity.
Qed.





End ConeStages.

(** ** Saving a mesh *)

Lemma np_getitem_in_range {A : Type} (a : list A) (i : Z) :
  0 <= i < len a -> exists x, np_getitem a i = Ok x.
Proof.
  intros Hi. unfold np_getitem. cbv zeta.
  destruct (i <? 0) eqn:E1; [lia |].
  destruct ((i <? 0) || (len a <=? i)) eqn:E2; [lia |].
  destruct (nth_error a (Z.to_nat i)) as [x |] eqn:E3; [now exists x |].
  apply nth_error_None in E3. unfold len in Hi. lia.
Qed.

Lemma resolve_face_in_range (vs : list point) (f : face) :
  face_in_range (len vs) f -> exists t, resolve_face vs f = Ok t.
Proof.
  destruct f as [[a b] c]. intros (Ha & Hb & Hc). unfold resolve_face.
  destruct (np_getitem_in_range vs a Ha) as [pa ->].
  destruct (np_getitem_in_range vs b Hb) as [pb ->].
  destruct (np_getitem_in_range vs c Hc) as [pc ->].
  simpl. eexists. reflexivity.
Qed.

(** Every face of a mesh with valid indices resolves, so the file gets one
    triangle per face. *)
Lemma resolve_faces_total (vs : list point) (fs : list face) :
  Forall (face_in_range (len vs)) fs ->
  exists stl, resolve_faces vs fs = Ok stl /\ len stl = len fs.
Proof.
  induction fs as [| f fs IH]; intros H.
  - exists []. split; reflexivity.
  - inversion H as [| f' fs' Hf Hfs]; subst.
    destruct (resolve_face_in_range vs f Hf) as [t Ht].
    destruct (IH Hfs) as [ts [Hts Hlen]].
    exists (t :: ts). simpl. rewrite Ht, Hts. simpl.
    split; [reflexivity |]. rewrite !len_cons. lia.
Qed.

Lemma save_mesh_valid (filename : string) (m : mesh) (w : world) :
  index_valid m ->
  exists stl, resolve_faces (vertices m) (faces m) = Ok stl
              /\ len stl = nf m
              /\ save_mesh filename m w = (save filename stl w, Ok (nf m)).
Proof.
  intros Hm. destruct (resolve_faces_total _ _ Hm) as [stl [Hstl Hlen]].
  exists stl. unfold save_mesh. rewrite Hstl. now repeat split.
Qed.

(** ** numpy shapes *)

Lemma broadcast_dim_same (d : Z) : broadcast_dim d d = Ok d.
Proof. unfold broadcast_dim. now rewrite Z.eqb_refl. Qed.

Lemma broadcast_shape_same (s : Z * Z) : broadcast_shape s s = Ok s.
Proof.
  destruct s as [a b]. unfold broadcast_shape. simpl.
  now rewrite !broadcast_dim_same.
Qed.

Lemma shape_eqb_refl (s : Z * Z) : shape_eqb s s = true.
Proof. unfold shape_eqb. now rewrite !Z.eqb_refl. Qed.

Lemma np_binop_same (op : float -> float -> float) (a b : ndarray) :
  shape b = shape a ->
  exists c, np_binop op a b = Ok c /\ shape c = shape a.
Proof.
  intros Hs. unfold np_binop. rewrite Hs, broadcast_shape_same. simpl.
  eexists. split; reflexivity.
Qed.

Lemma np_iadd_same (z a : ndarray) :
  shape a = shape z -> exists z', np_iadd z a = Ok z' /\ shape z' = shape z.
Proof.
  intros Hs. unfold np_iadd. rewrite Hs, broadcast_shape_same. simpl.
  rewrite shape_eqb_refl. eexists. split; reflexivity.
Qed.

(** Adding an array of shape [(h, w)] into one of shape [(w, h)] is
    refused unless [w = h]. *)
Lemma np_iadd_transposed (z a : ndarray) (w h : Z) :
  w <> h -> shape z = (w, h) -> shape a = (h, w) ->
  np_iadd z a = Err ValueError.
Proof.
  intros Hwh Hz Ha. unfold np_iadd, broadcast_shape, broadcast_dim, shape_eqb.
  rewrite Hz, Ha. simpl.
  destruct (w =? h) eqn:E1; [lia |].
  destruct (h =? w) eqn:E2; [lia |].
  destruct (w =? 1) eqn:E3; destruct (h =? 1) eqn:E4; simpl;
    try reflexivity; try lia;
    rewrite ?E1, ?E2, ?andb_false_r; reflexivity.
Qed.

Lemma norm_index_ok (d i : Z) :
  - d <= i < d -> exists i', norm_index d i = Ok i'.
Proof.
  intros Hi. unfold norm_index. cbv zeta.
  destruct (i <? 0) eqn:E1.
  - destruct ((i + d <? 0) || (d <=? i + d)) eqn:E2; [lia | now eexists].
  - destruct ((i <? 0) || (d <=? i)) eqn:E2; [lia | now eexists].
Qed.

Lemma np_item_ok (a : ndarray) (i j : Z) :
  - fst (shape a) <= i < fst (shape a) ->
  - snd (shape a) <= j < snd (shape a) ->
  exists v, np_item a i j = Ok v.
Proof.
  intros Hi Hj. unfold np_item.
  destruct (norm_index_ok _ _ Hi) as [i' ->].
  destruct (norm_index_ok _ _ Hj) as [j' ->]. simpl. now eexists.
Qed.

Lemma np_item_empty (a : ndarray) (i j : Z) :
  fst (shape a) = 0 -> np_item a i j = Err IndexError.
Proof.
  intros H0. unfold np_item, norm_index. rewrite H0. cbv zeta.
  destruct (i <? 0) eqn:E1;
    [destruct ((i + 0 <? 0) || (0 <=? i + 0)) eqn:E2
    | destruct ((i <? 0) || (0 <=? i)) eqn:E2]; try reflexivity; lia.
Qed.

(** ** The stages of the terrain generator *)

Section TerrainStages.

Variable L : libm.

Lemma add_frequency_same (xg yg z : ndarray) (freq : Z) :
  shape yg = shape xg -> shape z = shape xg ->
  exists z', add_frequency L xg yg freq z = Ok z' /\ shape z' = shape z.
Proof.
  intros Hy Hz. unfold add_frequency. cbv zeta.
  edestruct np_binop_same as [t [-> Ht]]; [| simpl; apply np_iadd_same].
  - simpl. exact Hy.
  - simpl. simpl in Ht. congruence.
Qed.

Lemma add_frequency_transposed (xg yg z : ndarray) (freq w h : Z) :
  w <> h -> shape xg = (h, w) -> shape yg = (h, w) -> shape z = (w, h) ->
  add_frequency L xg yg freq z = Err ValueError.
Proof.
  intros Hwh Hx Hy Hz. unfold add_frequency. cbv zeta.
  edestruct np_binop_same as [t [-> Ht]].
  - simpl. rewrite Hy, Hx. reflexivity.
  - simpl. apply (np_iadd_transposed _ _ w h Hwh Hz).
    simpl. simpl in Ht. congruence.
Qed.

Lemma terrain_grids_unfold (width height : Z) :
  terrain_grids L width height
  = (x <- np_linspace (-10) 10 width ;;
     y <- np_linspace (-10) 10 height ;;
     z_grid <- np_zeros (width, height) ;;
     z_grid <- for_M [1; 2; 3; 5; 8; 13]
                 (add_frequency L (fst (np_meshgrid x y))
                    (snd (np_meshgrid x y))) z_grid ;;
     z_grid <- np_iadd z_grid
                 (np_map (fun v => v * 0.1)%float (snd (np_meshgrid x y))) ;;
     Ok (fst (np_meshgrid x y), snd (np_meshgrid x y), z_grid)).
Proof. reflexivity. Qed.

(** Unequal or negative dimensions: the grids cannot be built. *)
Lemma terrain_grids_mismatch (width height : Z) :
  width <> height \/ width < 0 ->
  terrain_grids L width height = Err ValueError.
Proof.
  intros H. rewrite terrain_grids_unfold. unfold np_linspace.
  destruct (width <? 0) eqn:Ew; [reflexivity |].
  destruct (height <? 0) eqn:Eh; [reflexivity |]. simpl bind.
  unfold np_zeros. simpl fst. simpl snd.
  rewrite Ew, Eh. simpl bind.
  cbn [for_M]. rewrite (add_frequency_transposed _ _ _ 1 width height);
    [reflexivity | lia | reflexivity | reflexivity | reflexivity].
Qed.

(** Equal dimensions: the three grids are [width] by [width]. *)
Lemma terrain_grids_square (width : Z) :
  0 <= width ->
  exists xg yg zg,
    terrain_grids L width width = Ok (xg, yg, zg)
    /\ shape xg = (width, width) /\ shape yg = (width, width)
    /\ shape zg = (width, width).
Proof.
  intros Hw. rewrite terrain_grids_unfold. unfold np_linspace.
  destruct (width <? 0) eqn:Ew; [lia |]. cbn [bind].
  match goal with |- context [np_meshgrid ?v ?v] => set (x := v) end.
  set (xg := fst (np_meshgrid x x)). set (yg := snd (np_meshgrid x x)).
  unfold np_zeros. cbn [fst snd]. rewrite Ew. cbn [bind orb].
  match goal with |- context [for_M _ _ ?z] => set (z0 := z) end.
  destruct (for_M_total (fun z => shape z = (width, width))
              [1; 2; 3; 5; 8; 13] (add_frequency L xg yg)) with (s := z0)
    as [z1 [Hz1 Hs1]].
  - intros freq z _ Hz.
    destruct (add_frequency_same xg yg z freq) as [z' [Hz' Hs']];
      [reflexivity | exact Hz |].
    exists z'. split; [exact Hz' | congruence].
  - reflexivity.
  - rewrite Hz1. cbn [bind].
    destruct (np_iadd_same z1 (np_map (fun v => v * 0.1)%float yg))
      as [z2 [Hz2 Hs2]]; [simpl; now rewrite Hs1 |].
    rewrite Hz2. cbn [bind]. exists xg, yg, z2.
    repeat split; try reflexivity. congruence.
Qed.

Lemma grows_refl (m : mesh) : grows 0 0 m m.
Proof.
  exists []. split; [apply extends_refl |]. split; [reflexivity |].
  split; constructor.
Qed.

Lemma grows_trans (d1 f1 d2 f2 : Z) (m1 m2 m3 : mesh) :
  grows d1 f1 m1 m2 -> grows d2 f2 m2 m3 -> grows (d1 + d2) (f1 + f2) m1 m3.
Proof.
  intros (fs1 & E1 & L1 & R1 & D1) (fs2 & E2 & L2 & R2 & D2).
  exists (fs1 ++ fs2). split; [exact (extends_trans _ _ _ _ _ _ _ E1 E2) |].
  split; [rewrite len_app; lia |].
  split; apply Forall_app; split; try assumption.
  eapply Forall_impl; [| exact R1]. intros f. apply face_in_range_mono.
  destruct E2 as (H0 & H1 & _). lia.
Qed.

Lemma grows_eq (dv df dv' df' : Z) (m m' : mesh) :
  grows dv df m m' -> dv = dv' -> df = df' -> grows dv' df' m m'.
Proof. now intros H <- <-. Qed.

Lemma grows_index_valid (dv df : Z) (m m' : mesh) :
  grows dv df m m' -> index_valid m -> index_valid m'.
Proof.
  intros (fs & E & _ & R & _) Hm. exact (index_valid_extends _ _ _ _ E Hm R).
Qed.

Lemma grows_non_degenerate (dv df : Z) (m m' : mesh) :
  grows dv df m m' -> non_degenerate m -> non_degenerate m'.
Proof.
  intros (fs & E & _ & _ & D) Hm.
  exact (non_degenerate_extends _ _ _ _ E Hm D).
Qed.

Lemma grows_nv (dv df : Z) (m m' : mesh) :
  grows dv df m m' -> nv m' = nv m + dv.
Proof. intros (fs & (_ & H & _) & _). exact H. Qed.

Lemma grows_nf (dv df : Z) (m m' : mesh) :
  grows dv df m m' -> nf m' = nf m + df.
Proof. intros (fs & E & H & _). rewrite (nf_extends _ _ _ _ E). lia. Qed.

Lemma grows_append_vertex (p : point) (m : mesh) :
  grows 1 0 m (append_vertex p m).
Proof.
  exists []. split; [apply extends_append_vertex |]. split; [reflexivity |].
  split; constructor.
Qed.

Lemma grows_append_face (f : face) (m : mesh) :
  face_in_range (nv m) f -> face_distinct f -> grows 0 1 m (append_face f m).
Proof.
  intros Hr Hd. exists [f].
  split; [apply extends_append_face |]. split; [reflexivity |].
  split; constructor; try constructor; assumption.
Qed.

(** A loop whose every iteration grows the buffers by the same counts. *)
Lemma for_grows {A : Type} (dv df : Z) (l : list A)
    (body : A -> mesh -> mesh) :
  (forall x m, In x l -> grows dv df m (body x m)) ->
  forall m, grows (dv * len l) (df * len l) m (for_ l body m).
Proof.
  induction l as [| x l IH]; intros Hbody m.
  - rewrite for_nil. len_norm. eapply grows_eq; [apply grows_refl | lia | lia].
  - rewrite for_cons, len_cons.
    eapply grows_eq;
      [exact (grows_trans _ _ _ _ _ _ _ (Hbody x m (or_introl eq_refl))
                (IH (fun y u Hy => Hbody y u (or_intror Hy)) _)) | lia | lia].
Qed.

Lemma for_M_grows {A : Type} (dv df : Z) (l : list A)
    (body : A -> mesh -> result mesh) :
  (forall x m, In x l -> exists m', body x m = Ok m' /\ grows dv df m m') ->
  forall m, exists m',
    for_M l body m = Ok m' /\ grows (dv * len l) (df * len l) m m'.
Proof.
  induction l as [| x l IH]; intros Hbody m.
  - exists m. split; [reflexivity |]. len_norm.
    eapply grows_eq; [apply grows_refl | lia | lia].
  - destruct (Hbody x m (or_introl eq_refl)) as [m1 [H1 G1]].
    destruct (IH (fun y u Hy => Hbody y u (or_intror Hy)) m1) as [m2 [H2 G2]].
    exists m2. simpl. rewrite H1. simpl. split; [exact H2 |].
    rewrite len_cons.
    eapply grows_eq; [exact (grows_trans _ _ _ _ _ _ _ G1 G2) | lia | lia].
Qed.

(** *** The grid *)

Lemma grid_vertices_square (xg yg zg : ndarray) (width : Z) (m : mesh) :
  shape xg = (width, width) -> shape yg = (width, width) ->
  shape zg = (width, width) ->
  exists m', grid_vertices xg yg zg width width m = Ok m'
             /\ grows (1 * len (range width) * len (range width)) 0 m m'.
Proof.
  intros Hx Hy Hz. unfold grid_vertices.
  edestruct (for_M_grows (1 * len (range width)) 0 (range width))
    as [m' [Hm' G]]; [| exists m'; split; [exact Hm' |]].
  - intros i u Hi. apply in_range in Hi.
    edestruct (for_M_grows 1 0 (range width)) as [u' [Hu' G']];
      [| exists u'; split; [exact Hu' |]].
    + intros j v Hj. apply in_range in Hj.
      destruct (np_item_ok xg i j) as [x ->]; [rewrite Hx; simpl; lia .. |].
      destruct (np_item_ok yg i j) as [y ->]; [rewrite Hy; simpl; lia .. |].
      destruct (np_item_ok zg i j) as [z ->]; [rewrite Hz; simpl; lia .. |].
      simpl. eexists. split; [reflexivity | apply grows_append_vertex].
    + eapply grows_eq; [exact G' | lia | lia].
  - eapply grows_eq; [exact G | lia | lia].
Qed.

Lemma grid_faces_extends (width height : Z) (m : mesh) :
  extends m (grid_faces width height m) 0 (grid_cells width height).
Proof.
  unfold grid_faces, grid_cells.
  apply for_faces. intros i u. apply for_faces. intros j v. cbv zeta.
  eapply extends_eq;
    [exact (extends_trans _ _ _ _ _ _ _
              (extends_append_face _ v) (extends_append_face _ _))
    | reflexivity | reflexivity ].
Qed.

Lemma len_grid_cells (width height : Z) :
  len (grid_cells width height)
  = 2 * (Z.max 0 (width - 1) * Z.max 0 (height - 1)).
Proof.
  unfold grid_cells.
  rewrite (len_flat_map _ (2 * Z.max 0 (width - 1))).
  - rewrite len_range. lia.
  - intros i _. rewrite (len_flat_map _ 2) by reflexivity.
    now rewrite len_range.
Qed.

Lemma grid_cells_in_range (width height : Z) :
  Forall (face_in_range (width * height)) (grid_cells width height).
Proof.
  apply Forall_forall. intros f Hf. unfold grid_cells in Hf.
  apply in_flat_map in Hf. destruct Hf as [i [Hi Hf]].
  apply in_flat_map in Hf. destruct Hf as [j [Hj Hf]].
  apply in_range in Hi. apply in_range in Hj.
  assert (H1 : 0 <= i * width) by nia.
  assert (H2 : (i + 1) * width + width <= width * height) by nia.
  destruct Hf as [<- | [<- | []]]; unfold face_in_range; lia.
Qed.

Lemma grid_cells_distinct (width height : Z) :
  Forall face_distinct (grid_cells width height).
Proof.
  apply Forall_forall. intros f Hf. unfold grid_cells in Hf.
  apply in_flat_map in Hf. destruct Hf as [i [Hi Hf]].
  apply in_flat_map in Hf. destruct Hf as [j [Hj Hf]].
  apply in_range in Hj.
  destruct Hf as [<- | [<- | []]]; unfold face_distinct; lia.
Qed.

(** *** Markers built from a template of faces *)

Lemma shifted_in_range (fs : list face) (k off : Z) :
  Forall (face_in_range k) fs -> 0 <= off ->
  Forall (face_in_range (off + k)) (map (shift_face off) fs).
Proof.
  intros H Hoff. apply Forall_map. eapply Forall_impl; [| exact H].
  intros [[a b] c]. unfold face_in_range, shift_face. lia.
Qed.

Lemma shifted_distinct (fs : list face) (off : Z) :
  Forall face_distinct fs -> Forall face_distinct (map (shift_face off) fs).
Proof.
  intros H. apply Forall_map. eapply Forall_impl; [| exact H].
  intros [[a b] c]. unfold face_distinct, shift_face. lia.
Qed.

Lemma template_grows (vs : list point) (fs : list face) (m : mesh) :
  Forall (face_in_range (len vs)) fs -> Forall face_distinct fs ->
  grows (len vs) (len fs) m (axis_marker vs fs (nv m) m).
Proof.
  intros Hr Hd. exists (map (shift_face (nv m)) fs).
  pose proof (axis_marker_extends vs fs m) as E.
  split; [exact E |]. split; [apply len_map |].
  split; [| now apply shifted_distinct].
  destruct E as (_ & -> & _). apply shifted_in_range; [exact Hr |].
  apply nv_nonneg.
Qed.

Lemma marker_faces_ok :
  Forall (face_in_range 8) marker_faces /\ Forall face_distinct marker_faces.
Proof.
  unfold marker_faces.
  split; repeat apply Forall_cons; try apply Forall_nil;
    unfold face_in_range, face_distinct; lia.
Qed.

Lemma corner_marker_grows (c : point) (m : mesh) :
  grows 8 12 m (corner_marker c m).
Proof.
  destruct c as [[cx cy] cz]. unfold corner_marker. cbv zeta.
  match goal with
  | |- context [for_ ?vs append_vertex m] =>
      change (grows (len vs) (len marker_faces) m
                (axis_marker vs marker_faces (nv m) m))
  end.
  apply template_grows; apply marker_faces_ok.
Qed.

Lemma corner_markers_grows (zg : ndarray) (width : Z) (m : mesh) :
  shape zg = (width, width) -> 1 <= width ->
  exists m', corner_markers zg m = Ok m' /\ grows 32 48 m m'.
Proof.
  intros Hz Hw. unfold corner_markers.
  destruct (np_item_ok zg 0 0) as [z1 ->]; [rewrite Hz; simpl; lia .. |].
  destruct (np_item_ok zg 0 (-1)) as [z2 ->]; [rewrite Hz; simpl; lia .. |].
  destruct (np_item_ok zg (-1) 0) as [z3 ->]; [rewrite Hz; simpl; lia .. |].
  destruct (np_item_ok zg (-1) (-1)) as [z4 ->];
    [rewrite Hz; simpl; lia .. |].
  cbn [bind]. eexists. split; [reflexivity |].
  eapply grows_eq;
    [apply for_grows; intros c u _; apply corner_marker_grows
    | reflexivity | reflexivity].
Qed.

(** *** The axis lines *)

Lemma half_in_range (w : Z) : 1 <= w -> 0 <= w / 2 < w.
Proof.
  intros Hw. split; [apply Z.div_pos; lia |].
  apply Z.div_lt_upper_bound; lia.
Qed.

Lemma axis_lines_grows (zg : ndarray) (width : Z) (m : mesh) :
  shape zg = (width, width) -> 1 <= width ->
  exists m', axis_lines zg width width m = Ok m' /\ grows 8 4 m m'.
Proof.
  intros Hz Hw. unfold axis_lines. cbv zeta.
  pose proof (half_in_range width Hw) as Hhalf.
  destruct (np_item_ok zg (width / 2) 0) as [z1 ->];
    [rewrite Hz; cbn [fst snd]; lia .. |].
  destruct (np_item_ok zg (width / 2) (-1)) as [z2 ->];
    [rewrite Hz; cbn [fst snd]; lia .. |].
  destruct (np_item_ok zg 0 (width / 2)) as [z3 ->];
    [rewrite Hz; cbn [fst snd]; lia .. |].
  destruct (np_item_ok zg (-1) (width / 2)) as [z4 ->];
    [rewrite Hz; cbn [fst snd]; lia .. |].
  cbn [bind]. eexists. split; [reflexivity |].
  pose proof (nv_nonneg m) as Hm.
  exists [ (nv m, nv m + 1, nv m + 2); (nv m + 1, nv m + 3, nv m + 2);
           (nv m + 4, nv m + 4 + 1, nv m + 4 + 2);
           (nv m + 4 + 1, nv m + 4 + 3, nv m + 4 + 2) ].
  unfold extends, nv in *. unfold append_face, append_vertex.
  cbn [vertices faces]. len_norm.
  split; [| split; [reflexivity |]].
  - split; [lia |]. split; [lia |]. rewrite <- !app_assoc. cbn [app].
    f_equal.
    repeat match goal with
           | |- _ :: _ = _ :: _ => f_equal
           | |- (_, _) = (_, _) => f_equal
           end; lia.
  - split; repeat apply Forall_cons; try apply Forall_nil;
      unfold face_in_range, face_distinct; lia.
Qed.

(** *** The central arrow *)

Lemma nth_error_range (n i : Z) :
  0 <= i < n -> nth_error (range n) (Z.to_nat i) = Some i.
Proof.
  intros Hi. unfold range. rewrite nth_error_map, nth_error_seq.
  destruct (Nat.ltb_spec (Z.to_nat i) (Z.to_nat n)) as [_ | H]; [| lia].
  simpl. f_equal. lia.
Qed.

Lemma np_getitem_map_range (f : Z -> Z) (n i : Z) :
  0 <= i < n -> np_getitem (map f (range n)) i = Ok (f i).
Proof.
  intros Hi. unfold np_getitem. cbv zeta. rewrite len_map, len_range.
  destruct (i <? 0) eqn:E1; [lia |].
  destruct ((i <? 0) || (Z.max 0 n <=? i)) eqn:E2; [lia |].
  now rewrite nth_error_map, nth_error_range.
Qed.

(** The loop that appends the base vertices and records their indices. *)
Lemma base_loop (l : list Z) (body : Z -> mesh * list Z -> mesh * list Z) :
  (forall i m idx, exists p,
      body i (m, idx)
      = (append_vertex p m, idx ++ [len (vertices (append_vertex p m)) - 1])) ->
  forall m idx, exists m',
    for_ l body (m, idx) = (m', idx ++ map (Z.add (nv m)) (range (len l)))
    /\ grows (len l) 0 m m'.
Proof.
  intros Hbody. induction l as [| i l IH]; intros m idx.
  - exists m. rewrite for_nil. len_norm. simpl. rewrite app_nil_r.
    split; [reflexivity | apply grows_refl].
  - rewrite for_cons. destruct (Hbody i m idx) as [p ->].
    destruct (IH (append_vertex p m)
                (idx ++ [len (vertices (append_vertex p m)) - 1]))
      as [m' [Hm' G]].
    exists m'. rewrite Hm'. split.
    + rewrite <- app_assoc. apply (f_equal (pair m')).
      apply (f_equal (app idx)). rewrite len_cons.
      pose proof (len_nonneg l) as Hl.
      rewrite (range_shift 1 (len l)) by lia.
      change (range 1) with [0]. cbn [map app].
      assert (Hnv : nv (append_vertex p m) = nv m + 1).
      { unfold nv, append_vertex. cbn [vertices]. len_norm. lia. }
      fold (nv (append_vertex p m)). rewrite Hnv, map_map.
      f_equal; [lia |]. apply map_ext. intros k. lia.
    + rewrite len_cons.
      eapply grows_eq;
        [exact (grows_trans _ _ _ _ _ _ _ (grows_append_vertex p m) G)
        | lia | lia].
Qed.

(** A loop whose iteration [x] appends the face [F x]. *)
Lemma for_M_faces {A : Type} (F : A -> face) (l : list A)
    (body : A -> mesh -> result mesh) (n : Z) :
  (forall x m, In x l -> body x m = Ok (append_face (F x) m)) ->
  (forall x, In x l -> face_in_range n (F x) /\ face_distinct (F x)) ->
  forall m, nv m = n ->
  exists m', for_M l body m = Ok m' /\ grows 0 (len l) m m'.
Proof.
  induction l as [| x l IH]; intros Hbody HF m Hm.
  - exists m. split; [reflexivity | apply grows_refl].
  - simpl. rewrite Hbody by now left. cbn [bind].
    destruct (HF x (or_introl eq_refl)) as [Hr Hd].
    assert (G1 : grows 0 1 m (append_face (F x) m)).
    { apply grows_append_face; [now rewrite Hm | exact Hd]. }
    destruct (IH (fun y u Hy => Hbody y u (or_intror Hy))
                (fun y Hy => HF y (or_intror Hy)) (append_face (F x) m))
      as [m' [Hm' G2]].
    { rewrite (grows_nv _ _ _ _ G1). lia. }
    exists m'. split; [exact Hm' |]. rewrite len_cons.
    eapply grows_eq; [exact (grows_trans _ _ _ _ _ _ _ G1 G2) | lia | lia].
Qed.

Lemma central_arrow_grows (zg : ndarray) (width : Z) (m : mesh) :
  shape zg = (width, width) -> 1 <= width ->
  exists m', central_arrow L zg width width m = Ok m' /\ grows 22 40 m m'.
Proof.
  intros Hz Hw. unfold central_arrow. cbv zeta.
  pose proof (half_in_range width Hw) as Hhalf.
  destruct (np_item_ok zg (width / 2) (width / 2)) as [z ->];
    [rewrite Hz; cbn [fst snd]; lia .. |].
  cbn [bind].
  set (m1 := append_vertex _ m).
  match goal with
  | |- context [for_ (range 20) ?b (m1, [])] =>
      destruct (base_loop (range 20) b) with (m := m1) (idx := @nil Z)
        as [m2 [Hloop G2]]
  end.
  { intros i u idx. eexists. reflexivity. }
  rewrite Hloop. cbn [app]. cbv beta iota. clear Hloop.
  change (len (range 20)) with 20 in *.
  set (m3 := append_vertex _ m2).
  assert (G1 : grows 1 0 m m1) by apply grows_append_vertex.
  assert (G3 : grows 1 0 m2 m3) by apply grows_append_vertex.
  pose proof (grows_nv _ _ _ _ G1) as N1.
  pose proof (grows_nv _ _ _ _ G2) as N2.
  pose proof (grows_nv _ _ _ _ G3) as N3.
  pose proof (nv_nonneg m) as N0.
  fold (nv m) (nv m2).
  assert (Hfan : forall c, 0 <= c < nv m + 22 -> c <= nv m \/ nv m + 21 <= c ->
            forall i, In i (range 20) ->
              face_in_range (nv m + 22)
                (c, nv m1 + i, nv m1 + (i + 1) mod 20)
              /\ face_distinct (c, nv m1 + i, nv m1 + (i + 1) mod 20)).
  { intros c Hc Hc' i Hi. apply in_range in Hi.
    pose proof (Z.mod_pos_bound (i + 1) 20 ltac:(lia)).
    pose proof (next_rim_differs 20 i ltac:(lia) Hi).
    unfold face_in_range, face_distinct. lia. }
  assert (Hbody : forall c i (u : mesh), In i (range 20) ->
            (a <- np_getitem (map (Z.add (nv m1)) (range 20)) i ;;
             b <- np_getitem (map (Z.add (nv m1)) (range 20))
                    ((i + 1) mod 20) ;;
             Ok (append_face (c, a, b) u))
            = Ok (append_face (c, nv m1 + i, nv m1 + (i + 1) mod 20) u)).
  { intros c i u Hi. apply in_range in Hi.
    pose proof (Z.mod_pos_bound (i + 1) 20 ltac:(lia)).
    now rewrite !np_getitem_map_range by lia. }
  match goal with
  | |- context [for_M (range 20) ?b m3] =>
      destruct (for_M_faces
                  (fun i => (nv m, nv m1 + i, nv m1 + (i + 1) mod 20))
                  (range 20) b (nv m + 22)) with (m := m3)
        as [m4 [H4 G4]]
  end.
  { intros i u Hi. now apply Hbody. }
  { intros i Hi. apply Hfan; [lia | lia | exact Hi]. }
  { lia. }
  rewrite H4. cbn [bind].
  match goal with
  | |- context [for_M (range 20) ?b m4] =>
      destruct (for_M_faces
                  (fun i => (nv m2, nv m1 + i, nv m1 + (i + 1) mod 20))
                  (range 20) b (nv m + 22)) with (m := m4)
        as [m5 [H5 G5]]
  end.
  { intros i u Hi. now apply Hbody. }
  { intros i Hi. apply Hfan; [lia | lia | exact Hi]. }
  { rewrite (grows_nv _ _ _ _ G4). lia. }
  exists m5. split; [exact H5 |].
  change (len (range 20)) with 20 in *.
  eapply grows_eq;
    [exact (grows_trans _ _ _ _ _ _ _
              (grows_trans _ _ _ _ _ _ _
                 (grows_trans _ _ _ _ _ _ _
                    (grows_trans _ _ _ _ _ _ _ G1 G2) G3) G4) G5)
    | reflexivity | reflexivity].
Qed.

(** *** The whole terrain *)

Lemma grows_from_empty (dv df : Z) (m : mesh) :
  grows dv df empty_mesh m ->
  nv m = dv /\ nf m = df /\ index_valid m /\ non_degenerate m.
Proof.
  intros G. split; [| split; [| split]].
  - rewrite (grows_nv _ _ _ _ G). reflexivity.
  - rewrite (grows_nf _ _ _ _ G). reflexivity.
  - apply (grows_index_valid _ _ _ _ G). constructor.
  - apply (grows_non_degenerate _ _ _ _ G). constructor.
Qed.

Lemma terrain_body_square (width : Z) :
  0 <= width ->
  exists zg m,
    terrain_body L width width = Ok (zg, m)
    /\ shape zg = (width, width)
    /\ faces m = grid_cells width width
    /\ grows (width * width)
         (2 * (Z.max 0 (width - 1) * Z.max 0 (width - 1))) empty_mesh m.
Proof.
  intros Hw. unfold terrain_body.
  destruct (terrain_grids_square width Hw)
    as (xg & yg & zg & -> & Hx & Hy & Hz).
  cbn [bind].
  destruct (grid_vertices_square xg yg zg width empty_mesh Hx Hy Hz)
    as [m1 [-> G1]].
  cbn [bind]. exists zg, (grid_faces width width m1).
  split; [reflexivity |]. split; [exact Hz |].
  pose proof (grid_faces_extends width width m1) as E2.
  assert (F1 : faces m1 = []).
  { destruct G1 as (fs & (_ & _ & Hf) & Hl & _). rewrite Hf.
    destruct fs; [reflexivity |]. rewrite len_cons in Hl.
    pose proof (len_nonneg fs). lia. }
  split; [destruct E2 as (_ & _ & ->); now rewrite F1 |].
  rewrite len_range in G1.
  assert (G2 : grows 0 (len (grid_cells width width)) m1
                 (grid_faces width width m1)).
  { exists (grid_cells width width). split; [exact E2 |].
    split; [reflexivity |]. split; [| apply grid_cells_distinct].
    destruct E2 as (_ & -> & _). rewrite (grows_nv _ _ _ _ G1).
    change (nv empty_mesh) with 0.
    replace (0 + 1 * Z.max 0 width * Z.max 0 width + 0)
      with (width * width) by lia.
    apply grid_cells_in_range. }
  eapply grows_eq; [exact (grows_trans _ _ _ _ _ _ _ G1 G2) | lia |].
  rewrite len_grid_cells. lia.
Qed.

(** Equal dimensions of at least one: the generator returns a mesh; the
    grid comes first, then 92 faces of markers, arrow and axis lines. *)
Lemma terrain_mesh_square (width : Z) :
  1 <= width ->
  exists m rest,
    terrain_mesh L width width = Ok m
    /\ faces m = grid_cells width width ++ rest /\ len rest = 92
    /\ nv m = width * width + 62
    /\ nf m = 2 * ((width - 1) * (width - 1)) + 92
    /\ index_valid m /\ non_degenerate m.
Proof.
  intros Hw. unfold terrain_mesh.
  destruct (terrain_body_square width ltac:(lia))
    as (zg & m1 & -> & Hz & F1 & G1).
  cbn [bind].
  destruct (corner_markers_grows zg width m1 Hz Hw) as [m2 [-> G2]].
  cbn [bind].
  destruct (central_arrow_grows zg width m2 Hz Hw) as [m3 [-> G3]].
  cbn [bind].
  destruct (axis_lines_grows zg width m3 Hz Hw) as [m4 [H4 G4]].
  pose proof (grows_trans _ _ _ _ _ _ _ (grows_trans _ _ _ _ _ _ _ G2 G3) G4)
    as G.
  destruct (grows_from_empty _ _ _ (grows_trans _ _ _ _ _ _ _ G1 G))
    as (Hnv & Hnf & Hv & Hd).
  destruct G as (rest & (_ & _ & Hrest) & Hlen & _).
  exists m4, rest. split; [exact H4 |].
  split; [now rewrite Hrest, F1 |]. split; [exact Hlen |].
  split; [rewrite Hnv; lia |].
  split; [rewrite Hnf, !Z.max_r by lia; lia |]. now split.
Qed.

Lemma terrain_mesh_mismatch (width height : Z) :
  width <> height \/ width < 0 ->
  terrain_mesh L width height = Err ValueError.
Proof.
  intros H. unfold terrain_mesh, terrain_body.
  now rewrite terrain_grids_mismatch.
Qed.

Lemma terrain_mesh_empty : terrain_mesh L 0 0 = Err IndexError.
Proof.
  unfold terrain_mesh.
  destruct (terrain_body_square 0 ltac:(lia)) as (zg & m1 & -> & Hz & _).
  cbn [bind]. unfold corner_markers.
  rewrite np_item_empty by now rewrite Hz. reflexivity.
Qed.


End TerrainStages.

(** ** The two generators, end to end *)

Section Runs.

Variable L : libm.





Lemma create_terrain_square (f : string) (width : Z) (w : world) :
  1 <= width ->
  exists m stl,
    terrain_mesh L width width = Ok m
    /\ resolve_faces (vertices m) (faces m) = Ok stl
    /\ len stl = nf m
    /\ create_complex_oriented_terrain L f width width w
       = (save f stl (alloc_buffers w), Ok (nf m)).
Proof.
  intros Hw.
  destruct (terrain_mesh_square L width Hw)
    as (m & rest & Hm & _ & _ & _ & _ & Hv & _).
  destruct (save_mesh_valid f m (alloc_buffers w) Hv)
    as (stl & Hstl & Hlen & Hsave).
  exists m, stl. repeat split; try assumption.
  unfold create_complex_oriented_terrain. cbv zeta. now rewrite Hm.
Qed.

Lemma create_terrain_failure (f : string) (width height : Z) (w : world)
    (e : py_error) :
  terrain_mesh L width height = Err e ->
  create_complex_oriented_terrain L f width height w
  = (alloc_buffers w, Err e).
Proof.
  intros H. unfold create_complex_oriented_terrain. cbv zeta. now rewrite H.
Qed.

End Runs.





(** * The properties of the specification *)













(** C6, the failing input: with [width = 2] and [height = 3] the generator
    stops with [ValueError] when the first frequency is added to [z_grid]
    (whose shape is [(width, height)], while the grids have shape
    [(height, width)]), so the grid stage is never reached; on its own the
    grid stage emits the [2 * (2 - 1) * (3 - 1)] faces of the claim. *)
Theorem C6_terrain_grid_non_square (L : libm) (f : string) (w : world) :
  create_complex_oriented_terrain L f 2 3 w = (alloc_buffers w, Err ValueError)
  /\ disk (fst (create_complex_oriented_terrain L f 2 3 w)) = disk w
  /\ faces (grid_faces 2 3 empty_mesh)
     = [ (0, 1, 2); (1, 3, 2); (2, 3, 4); (3, 5, 4) ]
  /\ nf (grid_faces 2 3 empty_mesh) = 2 * (2 - 1) * (3 - 1).
Proof.
  assert (H : create_complex_oriented_terrain L f 2 3 w
              = (alloc_buffers w, Err ValueError)).
  { apply create_terrain_failure. apply terrain_mesh_mismatch. left. lia. }
  split; [exact H |]. rewrite H. repeat split; reflexivity.
Qed.

(** C7 (terrain of 10 by 10): the generator returns 254; the grid stage
    leaves 162 faces, the four pylons add 48, the arrow 40 and the two axis
    lines 4. *)
Theorem C7_terrain_10_10 (L : libm) (f : string) (w : world) :
  snd (create_complex_oriented_terrain L f 10 10 w) = Ok 254
  /\ exists zg m1 m2 m3 m4,
       terrain_body L 10 10 = Ok (zg, m1) /\ nf m1 = 2 * 9 * 9
       /\ corner_markers zg m1 = Ok m2 /\ nf m2 = nf m1 + 4 * 12
       /\ central_arrow L zg 10 10 m2 = Ok m3 /\ nf m3 = nf m2 + 2 * 20
       /\ axis_lines zg 10 10 m3 = Ok m4 /\ nf m4 = nf m3 + 2 * 2
       /\ terrain_mesh L 10 10 = Ok m4 /\ nf m4 = 254.
Proof.
  assert (H10 : 1 <= 10) by lia.
  destruct (terrain_body_square L 10 ltac:(lia))
    as (zg & m1 & Hb & Hz & _ & G1).
  destruct (corner_markers_grows zg 10 m1 Hz H10) as [m2 [H2 G2]].
  destruct (central_arrow_grows L zg 10 m2 Hz H10) as [m3 [H3 G3]].
  destruct (axis_lines_grows zg 10 m3 Hz H10) as [m4 [H4 G4]].
  assert (Hm : terrain_mesh L 10 10 = Ok m4).
  { unfold terrain_mesh. rewrite Hb. cbn [bind]. rewrite H2. cbn [bind].
    rewrite H3. cbn [bind]. exact H4. }
  pose proof (grows_nf _ _ _ _ G1) as N1. change (nf empty_mesh) with 0 in N1.
  pose proof (grows_nf _ _ _ _ G2) as N2.
  pose proof (grows_nf _ _ _ _ G3) as N3.
  pose proof (grows_nf _ _ _ _ G4) as N4.
  change (2 * (Z.max 0 (10 - 1) * Z.max 0 (10 - 1))) with 162 in N1.
  assert (N : nf m4 = 254) by lia.
  split.
  - destruct (create_terrain_square L f 10 w H10)
      as (m & stl & Hm' & _ & _ & ->).
    rewrite Hm in Hm'. inversion Hm'; subst m. simpl. now rewrite N.
  - exists zg, m1, m2, m3, m4. repeat split; try assumption; lia.
Qed.




(** C10 (the texture fill, when it runs): on a remaining budget [R > 0]
    the fill returns; with [s] the square root of [R / 10] rounded down it
    appends [2 * s * (10 s) = 20 s^2] faces and [40 s^2] vertices; the new
    faces are those of [10 s^2] cells, and the faces of cell [k] use the
    four vertices appended for cell [k] and no other. *)
Theorem C10_spiral_fill (L : libm) (T : Z) (m : mesh) :
  0 < T - nf m ->
  let R := T - nf m in
  let s := Z.sqrt (R / 10) in
  exists m',
    texture_fill L T m = Ok m'
    /\ m' = spiral_fill L s (s * 10) m
    /\ nf m' = nf m + 2 * s * (s * 10)
    /\ nf m' = nf m + 20 * (s * s)
    /\ nv m' = nv m + 40 * (s * s)
    /\ faces m' = faces m ++ quad_strip (nv m) (10 * (s * s))
    /\ forall k f i,
         0 <= k < 10 * (s * s) -> In f (quad_faces (nv m + 4 * k)) ->
         In i (face_indices f) ->
         nv m + 4 * k <= i < nv m + 4 * k + 4.
Proof.
  intros HR R s.
  exists (spiral_fill L s (s * 10) m).
  split; [now apply texture_fill_runs |]. split; [reflexivity |].
  pose proof (spiral_fill_quads L s m (Z.sqrt_nonneg _)) as Hq.
  split; [rewrite (nf_quads _ _ _ Hq); lia |].
  split; [rewrite (nf_quads _ _ _ Hq); lia |].
  split; [rewrite (nv_quads _ _ _ Hq); lia |].
  split; [destruct Hq as [_ (_ & _ & H)]; exact H |].
  intros k f i Hk Hf Hi.
  destruct Hf as [<- | [<- | []]]; cbn [face_indices] in Hi;
    destruct Hi as [<- | [<- | [<- | []]]]; lia.
Qed.

Lemma C10_spiral_fill_witness :
  0 < 100 - nf empty_mesh
  /\ exists m',
       texture_fill series_libm 100 empty_mesh = Ok m'
       /\ nf m'
          = nf empty_mesh + 20 * (Z.sqrt ((100 - nf empty_mesh) / 10)
                                  * Z.sqrt ((100 - nf empty_mesh) / 10)).
Proof.
  assert (H : 0 < 100 - nf empty_mesh) by (change (nf empty_mesh) with 0; lia).
  destruct (C10_spiral_fill series_libm 100 empty_mesh H)
    as (m' & Hm' & _ & _ & Hn & _).
  exact (conj H (ex_intro _ m' (conj Hm' Hn))).
Defined.

(** X1 (the grid stage on a square grid): for [width = height = n >= 2] the
    stage is reached and leaves exactly [2 (n - 1) (n - 1)] faces, two per
    cell, row by row. *)
Theorem terrain_grid_square (L : libm) (n : Z) :
  2 <= n ->
  exists zg m,
    terrain_body L n n = Ok (zg, m)
    /\ nv m = n * n
    /\ nf m = 2 * (n - 1) * (n - 1)
    /\ faces m
       = flat_map (fun i => flat_map (fun j => cell_faces n i j)
                              (range (n - 1))) (range (n - 1))
    /\ index_valid m /\ non_degenerate m.
Proof.
  intros Hn.
  destruct (terrain_body_square L n ltac:(lia)) as (zg & m & Hb & _ & Hf & G).
  destruct (grows_from_empty _ _ _ G) as (Hnv & Hnf & Hv & Hd).
  exists zg, m. split; [exact Hb |]. split; [exact Hnv |].
  split; [rewrite Hnf, !Z.max_r by lia; lia |].
  split; [exact Hf |]. now split.
Qed.

Lemma terrain_grid_square_witness :
  2 <= 3 /\ exists zg m, terrain_body series_libm 3 3 = Ok (zg, m)
                         /\ nf m = 2 * (3 - 1) * (3 - 1).
Proof.
  assert (H : 2 <= 3) by lia.
  destruct (terrain_grid_square series_libm 3 H)
    as (zg & m & Hb & _ & Hn & _).
  exact (conj H (ex_intro _ zg (ex_intro _ m (conj Hb Hn)))).
Defined.

(** * Further properties of the code *)

(** ** What a run leaves on disk *)

Lemma resolve_faces_length (vs : list point) (fs : list face)
    (stl : stl_file) :
  resolve_faces vs fs = Ok stl -> len stl = len fs.
Proof.
  revert stl. induction fs as [| f fs IH]; intros stl H; simpl in H.
  - now inversion H.
  - destruct (resolve_face vs f) as [t | e]; [| discriminate H].
    cbn [bind] in H.
    destruct (resolve_faces vs fs) as [ts | e]; [| discriminate H].
    cbn [bind] in H. inversion H; subst stl.
    rewrite !len_cons, (IH ts eq_refl). reflexivity.
Qed.


Lemma save_mesh_cases (f : string) (m : mesh) (w : world) :
  (exists e, resolve_faces (vertices m) (faces m) = Err e
             /\ save_mesh f m w = (w, Err e))
  \/ (exists stl, resolve_faces (vertices m) (faces m) = Ok stl
                  /\ len stl = nf m
                  /\ save_mesh f m w = (save f stl w, Ok (nf m))).
Proof.
  unfold save_mesh.
  destruct (resolve_faces (vertices m) (faces m)) as [stl | e] eqn:E.
  - right. exists stl. split; [reflexivity |].
    split; [exact (resolve_faces_length _ _ _ E) | reflexivity].
  - left. exists e. now split.
Qed.

Lemma disk_save_same (f : string) (stl : stl_file) (w : world) :
  disk (save f stl w) f = Some stl.
Proof. cbn [save disk]. now rewrite String.eqb_refl. Qed.

Lemma disk_save_other (f g : string) (stl : stl_file) (w : world) :
  g <> f -> disk (save f stl w) g = disk w g.
Proof.
  intros H. cbn [save disk]. apply String.eqb_neq in H. now rewrite H.
Qed.

(** What [save_mesh] does to the disk: the file named is written when a
    count is returned, and nothing else changes. *)
Lemma save_mesh_frame (f : string) (m : mesh) (w : world) :
  (forall g, g <> f -> disk (fst (save_mesh f m w)) g = disk w g)
  /\ (forall n, snd (save_mesh f m w) = Ok n ->
        exists stl, disk (fst (save_mesh f m w)) f = Some stl /\ len stl = n)
  /\ (forall e, snd (save_mesh f m w) = Err e ->
        disk (fst (save_mesh f m w)) f = disk w f).
Proof.
  destruct (save_mesh_cases f m w) as [(e & _ & ->) | (stl & _ & Hl & ->)];
    cbn [fst snd].
  - split; [reflexivity |].
    split; [intros n H; discriminate H | reflexivity].
  - split; [intros g Hg; now apply disk_save_other |].
    split; [| intros e H; discriminate H].
    intros n H. inversion H; subst n. exists stl.
    split; [apply disk_save_same | exact Hl].
Qed.

Lemma cone_run_frame (L : libm) (f : string) (w : world) (T : Z) :
  (forall g, g <> f ->
     disk (fst (create_directional_model L f T w)) g = disk w g)
  /\ (forall n, snd (create_directional_model L f T w) = Ok n ->
        exists stl,
          disk (fst (create_directional_model L f T w)) f = Some stl
          /\ len stl = n)
  /\ (forall e, snd (create_directional_model L f T w) = Err e ->
        disk (fst (create_directional_model L f T w)) f = disk w f).
Proof.
  unfold create_directional_model. cbv zeta.
  destruct (int_sqrt_tenth T) as [r | e];
    [| cbn [fst snd]; split; [reflexivity |];
       split; [intros n H; discriminate H | reflexivity]].
  destruct (directional_mesh L r T) as [m | e];
    [| cbn [fst snd]; split; [reflexivity |];
       split; [intros n H; discriminate H | reflexivity]].
  exact (save_mesh_frame f m (alloc_buffers w)).
Qed.

Lemma terrain_run_frame (L : libm) (f : string) (w : world)
    (width height : Z) :
  (forall g, g <> f ->
     disk (fst (create_complex_oriented_terrain L f width height w)) g
     = disk w g)
  /\ (forall n,
        snd (create_complex_oriented_terrain L f width height w) = Ok n ->
        exists stl,
          disk (fst (create_complex_oriented_terrain L f width height w)) f
          = Some stl
          /\ len stl = n)
  /\ (forall e,
        snd (create_complex_oriented_terrain L f width height w) = Err e ->
        disk (fst (create_complex_oriented_terrain L f width height w)) f
        = disk w f).
Proof.
  unfold create_complex_oriented_terrain. cbv zeta.
  destruct (terrain_mesh L width height) as [m | e];
    [| cbn [fst snd]; split; [reflexivity |];
       split; [intros n H; discriminate H | reflexivity]].
  exact (save_mesh_frame f m (alloc_buffers w)).
Qed.

(** X5 (what a run leaves on disk): whatever the parameters, a run of
    either generator changes no file but the one it is given; when it
    returns a count, that file holds exactly as many triangles; when it
    raises, that file is as it was. *)
Theorem generators_frame (L : libm) (f : string) (w : world)
    (T width height : Z) :
  let c := create_directional_model L f T w in
  let t := create_complex_oriented_terrain L f width height w in
  ((forall g, g <> f -> disk (fst c) g = disk w g)
   /\ (forall n, snd c = Ok n ->
         exists stl, disk (fst c) f = Some stl /\ len stl = n)
   /\ (forall e, snd c = Err e -> disk (fst c) f = disk w f))
  /\ ((forall g, g <> f -> disk (fst t) g = disk w g)
      /\ (forall n, snd t = Ok n ->
            exists stl, disk (fst t) f = Some stl /\ len stl = n)
      /\ (forall e, snd t = Err e -> disk (fst t) f = disk w f)).
Proof.
  cbv zeta. split; [apply cone_run_frame | apply terrain_run_frame].
Qed.



(** ** How many vertices and faces a run makes *)





(** X4 (what the terrain generator does with every pair of dimensions):
    for [width = height = n >= 1] it returns [2 (n - 1)^2 + 92] and its
    vertex buffer holds [n^2 + 62] points; for a grid of 0 by 0 it raises
    [IndexError]; for unequal or negative dimensions it raises
    [ValueError]; whenever it raises, the buffers have been created and
    no file is written. *)
Theorem terrain_outcome (L : libm) (f : string) (w : world)
    (width height : Z) :
  (width = height /\ 1 <= width ->
   snd (create_complex_oriented_terrain L f width height w)
   = Ok (2 * ((width - 1) * (width - 1)) + 92)
   /\ exists m, terrain_mesh L width height = Ok m
                /\ nv m = width * width + 62)
  /\ (width = 0 /\ height = 0 ->
      create_complex_oriented_terrain L f width height w
      = (alloc_buffers w, Err IndexError))
  /\ (width <> height \/ width < 0 ->
      create_complex_oriented_terrain L f width height w
      = (alloc_buffers w, Err ValueError)).
Proof.
  split; [| split].
  - intros [<- Hw].
    destruct (terrain_mesh_square L width Hw)
      as (m & rest & Hm & _ & _ & Hnv & Hnf & _).
    destruct (create_terrain_square L f width w Hw)
      as (m' & stl & Hm' & _ & _ & ->).
    rewrite Hm in Hm'. inversion Hm'; subst m'. cbn [snd].
    split; [now rewrite Hnf | now exists m].
  - intros [-> ->]. apply create_terrain_failure. apply terrain_mesh_empty.
  - intros H. apply create_terrain_failure. now apply terrain_mesh_mismatch.
Qed.

(** ** The shape of the cone body *)

(** A loop whose iterations keep a component of the state keeps it. *)
Lemma for_keeps {A S B : Type} (proj : S -> B) (l : list A)
    (body : A -> S -> S) :
  (forall x s, proj (body x s) = proj s) ->
  forall s, proj (for_ l body s) = proj s.
Proof.
  intros Hbody. induction l as [| x l IH]; intros s; [reflexivity |].
  rewrite for_cons, IH. apply Hbody.
Qed.

Lemma vertices_for_vertices {A : Type} (g : A -> point) (l : list A)
    (body : A -> mesh -> mesh) :
  (forall x m, body x m = append_vertex (g x) m) ->
  forall m, vertices (for_ l body m) = vertices m ++ map g l.
Proof.
  intros Hbody. induction l as [| x l IH]; intros m.
  - rewrite for_nil. simpl. now rewrite app_nil_r.
  - rewrite for_cons, IH, Hbody. unfold append_vertex. cbn [vertices map].
    now rewrite <- app_assoc.
Qed.

(** X7 (the two fans of the cone body): on empty buffers and with
    [r >= 0] steps, the vertices are the tip, the [r] rim points in order
    and the centre of the base; the faces are the [r] side faces
    [(0, 1 + i, 1 + (i + 1) % r)] followed by the [r] base faces
    [(r + 1, 1 + (i + 1) % r, 1 + i)]: the base face of step [i] runs along
    the same rim edge as the side face of step [i], in the other
    direction. *)
Theorem cone_body_fan (L : libm) (r : Z) :
  0 <= r ->
  let m := cone_body L r 0 empty_mesh in
  vertices m
  = ((0, 0, cone_height)%float :: map (cone_rim_point L r) (range r))
    ++ [(0, 0, 0)%float]
  /\ faces m
     = map (fun i => (0, 1 + i, 1 + (i + 1) mod r)) (range r)
       ++ map (fun i => (r + 1, 1 + (i + 1) mod r, 1 + i)) (range r).
Proof.
  intros Hr m. split.
  - unfold m, cone_body. cbv zeta.
    rewrite (for_keeps vertices) by reflexivity.
    unfold append_vertex at 1. cbn [vertices].
    rewrite (for_keeps vertices) by reflexivity.
    rewrite (vertices_for_vertices (cone_rim_point L r))
      by reflexivity.
    reflexivity.
  - destruct (cone_body_extends L r empty_mesh) as (_ & _ & H).
    change (nv empty_mesh) with 0 in H. fold m in H. rewrite H.
    change (faces empty_mesh) with (@nil face). cbn [app].
    unfold cone_faces. f_equal; apply map_ext; intros i;
      unfold side_face, cap_face;
      repeat match goal with |- (_, _) = (_, _) => f_equal end; lia.
Qed.

Lemma cone_body_fan_witness :
  0 <= 3
  /\ faces (cone_body series_libm 3 0 empty_mesh)
     = map (fun i => (0, 1 + i, 1 + (i + 1) mod 3)) (range 3)
       ++ map (fun i => (3 + 1, 1 + (i + 1) mod 3, 1 + i)) (range 3).
Proof.
  assert (H : 0 <= 3) by lia.
  exact (conj H (proj2 (cone_body_fan series_libm 3 H))).
Defined.

(** ** Every stage of the cone is a mesh of its own *)

Lemma face_between_in_range (lo hi n : Z) (f : face) :
  0 <= lo -> hi <= n -> face_between lo hi f -> face_in_range n f.
Proof. destruct f as [[a b] c]. unfold face_between, face_in_range. lia. Qed.


Lemma shifted_between (fs : list face) (k off : Z) :
  Forall (face_in_range k) fs ->
  Forall (face_between off (off + k)) (map (shift_face off) fs).
Proof.
  intros H. apply Forall_map. eapply Forall_impl; [| exact H].
  intros [[a b] c]. unfold face_in_range, face_between, shift_face. lia.
Qed.





(** ** The vertices of the terrain grid *)

Lemma norm_index_in_range (d i : Z) : 0 <= i < d -> norm_index d i = Ok i.
Proof.
  intros Hi. unfold norm_index. cbv zeta.
  destruct (i <? 0) eqn:E1; [lia |].
  destruct ((i <? 0) || (d <=? i)) eqn:E2; [lia | reflexivity].
Qed.

Lemma np_item_in_range (a : ndarray) (i j : Z) :
  0 <= i < fst (shape a) -> 0 <= j < snd (shape a) ->
  np_item a i j = Ok (item a i j).
Proof.
  intros Hi Hj. unfold np_item.
  rewrite (norm_index_in_range _ _ Hi). cbn [bind].
  rewrite (norm_index_in_range _ _ Hj). reflexivity.
Qed.

Lemma bidx_in_range (d i : Z) : 0 <= i < d -> bidx d i = i.
Proof. intros Hi. unfold bidx. destruct (d =? 1) eqn:E; lia. Qed.

Lemma item_b_in_range (a : ndarray) (n i j : Z) :
  shape a = (n, n) -> 0 <= i < n -> 0 <= j < n -> item_b a i j = item a i j.
Proof.
  intros Hs Hi Hj. unfold item_b. rewrite Hs. cbn [fst snd].
  now rewrite !bidx_in_range by assumption.
Qed.

Section TerrainVertices.

Variable L : libm.

(** One pass of the frequency loop, point by point. *)
Lemma add_frequency_item (xg yg z : ndarray) (freq n : Z) :
  shape xg = (n, n) -> shape yg = (n, n) -> shape z = (n, n) ->
  exists z',
    add_frequency L xg yg freq z = Ok z'
    /\ shape z' = (n, n)
    /\ forall i j, 0 <= i < n -> 0 <= j < n ->
         item z' i j
         = (item z i j
            + np_sin L (item xg i j * float_of_int freq)
              * np_cos L (item yg i j * float_of_int freq)
              / float_of_int freq)%float.
Proof.
  intros Hx Hy Hz. unfold add_frequency, np_binop, np_iadd. cbv zeta.
  cbn [shape np_map]. rewrite Hx, Hy, broadcast_shape_same. cbn [bind shape].
  rewrite Hz, broadcast_shape_same. cbn [bind]. rewrite shape_eqb_refl.
  eexists. split; [reflexivity |]. split; [reflexivity |].
  intros i j Hi Hj. cbn [item]. unfold item_b. cbn [shape np_map item].
  cbn [fst snd]. rewrite !(bidx_in_range n i Hi), !(bidx_in_range n j Hj).
  rewrite Hx, Hy. cbn [fst snd].
  now rewrite !(bidx_in_range n i Hi), !(bidx_in_range n j Hj).
Qed.

(** The frequency loop, point by point. *)
Lemma frequency_loop_item (xg yg : ndarray) (n : Z) (l : list Z) :
  shape xg = (n, n) -> shape yg = (n, n) ->
  forall z, shape z = (n, n) ->
  exists z',
    for_M l (add_frequency L xg yg) z = Ok z'
    /\ shape z' = (n, n)
    /\ forall i j, 0 <= i < n -> 0 <= j < n ->
         item z' i j
         = fold_left
             (fun v freq =>
                let f := float_of_int freq in
                (v + np_sin L (item xg i j * f)
                     * np_cos L (item yg i j * f) / f)%float)
             l (item z i j).
Proof.
  intros Hx Hy. induction l as [| freq l IH]; intros z Hz.
  - exists z. split; [reflexivity |]. split; [exact Hz | reflexivity].
  - destruct (add_frequency_item xg yg z freq n Hx Hy Hz)
      as (z1 & H1 & Hs1 & Hi1).
    destruct (IH z1 Hs1) as (z2 & H2 & Hs2 & Hi2).
    exists z2. cbn [for_M]. rewrite H1. cbn [bind].
    split; [exact H2 |]. split; [exact Hs2 |].
    intros i j Hi Hj. rewrite (Hi2 i j Hi Hj), (Hi1 i j Hi Hj). reflexivity.
Qed.

(** The three grids of a square terrain: the samples of [np.linspace] along
    both axes, and the height at every grid point. *)
Lemma terrain_grids_items (n : Z) :
  0 <= n ->
  exists x zg,
    np_linspace (-10) 10 n = Ok x
    /\ terrain_grids L n n
       = Ok (fst (np_meshgrid x x), snd (np_meshgrid x x), zg)
    /\ shape zg = (n, n)
    /\ forall i j, 0 <= i < n -> 0 <= j < n ->
         item zg i j = terrain_height L (elem x j) (elem x i).
Proof.
  intros Hn. rewrite terrain_grids_unfold. unfold np_linspace.
  destruct (n <? 0) eqn:En; [lia |]. cbn [bind].
  match goal with |- context [np_meshgrid ?v ?v] => set (x := v) end.
  exists x.
  set (xg := fst (np_meshgrid x x)). set (yg := snd (np_meshgrid x x)).
  unfold np_zeros. cbn [fst snd]. rewrite En. cbn [bind orb].
  match goal with |- context [for_M _ _ ?z] => set (z0 := z) end.
  destruct (frequency_loop_item xg yg n [1; 2; 3; 5; 8; 13]
              eq_refl eq_refl z0 eq_refl) as (z1 & H1 & Hs1 & Hi1).
  rewrite H1. cbn [bind].
  unfold np_iadd. cbn [shape np_map].
  rewrite Hs1. change (shape yg) with (n, n).
  rewrite broadcast_shape_same. cbn [bind]. rewrite shape_eqb_refl.
  eexists. split; [reflexivity |]. split; [reflexivity |].
  split; [reflexivity |].
  intros i j Hi Hj. cbn [item]. rewrite (Hi1 i j Hi Hj).
  match goal with
  | |- context [item_b ?a i j] =>
      rewrite (item_b_in_range a n i j eq_refl Hi Hj)
  end.
  reflexivity.
Qed.

(** A loop whose iteration [x] appends the vertices [G x]. *)
Lemma for_M_rows {A : Type} (G : A -> list point) (l : list A)
    (body : A -> mesh -> result mesh) :
  (forall x m, In x l ->
     body x m = Ok {| vertices := vertices m ++ G x; faces := faces m |}) ->
  forall m,
    for_M l body m
    = Ok {| vertices := vertices m ++ flat_map G l; faces := faces m |}.
Proof.
  induction l as [| x l IH]; intros Hbody m.
  - destruct m as [vs fs]. simpl. now rewrite app_nil_r.
  - cbn [for_M]. rewrite Hbody by now left. cbn [bind].
    rewrite IH by (intros y u Hy; apply Hbody; now right).
    cbn [vertices faces flat_map]. now rewrite <- app_assoc.
Qed.

Lemma grid_vertices_rows (xg yg zg : ndarray) (n : Z) (m : mesh) :
  shape xg = (n, n) -> shape yg = (n, n) -> shape zg = (n, n) ->
  grid_vertices xg yg zg n n m
  = Ok {| vertices :=
            vertices m
            ++ flat_map
                 (fun i =>
                    map (fun j => (item xg i j, item yg i j, item zg i j))
                      (range n)) (range n);
          faces := faces m |}.
Proof.
  intros Hx Hy Hz. unfold grid_vertices.
  apply for_M_rows. intros i u Hi. apply in_range in Hi.
  rewrite <- flat_map_single.
  apply for_M_rows. intros j v Hj. apply in_range in Hj.
  rewrite !np_item_in_range by (rewrite ?Hx, ?Hy, ?Hz; cbn [fst snd]; lia).
  reflexivity.
Qed.

Lemma nth_error_rows {B : Type} (g : Z -> Z -> B) (n h i j : Z) :
  0 <= i < h -> 0 <= j < n ->
  nth_error (flat_map (fun i => map (g i) (range n)) (range h))
    (Z.to_nat (i * n + j))
  = Some (g i j).
Proof.
  intros Hi Hj.
  replace h with (i + (1 + (h - i - 1))) by lia.
  rewrite (range_shift i), (range_shift 1) by lia.
  change (range 1) with [0]. cbn [map app]. rewrite flat_map_app.
  assert (Hlen : List.length (flat_map (fun i0 => map (g i0) (range n)) (range i))
                 = Z.to_nat (i * n)).
  { apply Nat2Z.inj. fold (len (flat_map (fun i0 => map (g i0) (range n))
                                  (range i))).
    rewrite (len_flat_map _ n) by (intros; now rewrite len_map, len_range, Z.max_r by lia).
    rewrite len_range. nia. }
  rewrite nth_error_app2 by (rewrite Hlen; nia).
  rewrite Hlen.
  replace (Z.to_nat (i * n + j) - Z.to_nat (i * n))%nat with (Z.to_nat j)
    by nia.
  cbn [flat_map]. rewrite nth_error_app1.
  - rewrite nth_error_map, nth_error_range by exact Hj. cbn [option_map].
    do 2 f_equal. lia.
  - rewrite length_map. unfold range. rewrite length_map, length_seq. lia.
Qed.

(** X9 (the vertices of the terrain grid): for [width = height = n >= 1]
    the grid stage is reached; with [x] the [n] samples of
    [np.linspace (-10, 10, n)], the vertex of row [i] and column [j] is
    stored at the index [i * n + j] and is the point
    [(x[j], x[i], terrain_height (x[j], x[i]))], and [z_grid[i, j]] is that
    height; the last sample is exactly 10 when [n >= 2]. *)
Theorem terrain_grid_vertices (n : Z) :
  1 <= n ->
  exists x zg m,
    np_linspace (-10) 10 n = Ok x
    /\ terrain_body L n n = Ok (zg, m)
    /\ (forall i j, 0 <= i < n -> 0 <= j < n ->
          nth_error (vertices m) (Z.to_nat (i * n + j))
          = Some (elem x j, elem x i, terrain_height L (elem x j) (elem x i))
          /\ np_item zg i j = Ok (terrain_height L (elem x j) (elem x i)))
    /\ (2 <= n -> elem x (n - 1) = 10%float).
Proof.
  intros Hn.
  destruct (terrain_grids_items n ltac:(lia)) as (x & zg & Hx & Hg & Hs & Hz).
  exists x, zg. unfold terrain_body. rewrite Hg. cbn [bind].
  assert (Hsize : size x = n).
  { unfold np_linspace in Hx. destruct (n <? 0); [discriminate Hx |].
    now inversion Hx. }
  rewrite (grid_vertices_rows _ _ _ n empty_mesh)
    by (cbn [np_meshgrid fst snd shape]; now rewrite ?Hsize).
  cbn [bind]. eexists. split; [exact Hx |]. split; [reflexivity |]. split.
  - intros i j Hi Hj. split.
    + unfold grid_faces.
      rewrite (for_keeps vertices)
        by (intros a u; apply (for_keeps vertices); reflexivity).
      cbn [vertices empty_mesh app].
      pose proof (nth_error_rows
                    (fun i j => (item (fst (np_meshgrid x x)) i j,
                                 item (snd (np_meshgrid x x)) i j,
                                 item zg i j)) n n i j Hi Hj) as Hnth.
      refine (eq_trans Hnth _).
      cbn [np_meshgrid fst snd item]. now rewrite (Hz i j Hi Hj).
    + rewrite np_item_in_range by (rewrite Hs; cbn [fst snd]; lia).
      now rewrite (Hz i j Hi Hj).
  - intros H2. unfold np_linspace in Hx.
    destruct (n <? 0); [discriminate Hx |]. inversion Hx. cbn [elem].
    replace (1 <? n) with true by (symmetry; apply Z.ltb_lt; lia).
    now rewrite Z.eqb_refl.
Qed.

End TerrainVertices.

Lemma terrain_grid_vertices_witness :
  1 <= 3 /\ exists x, np_linspace (-10) 10 3 = Ok x.
Proof.
  assert (H : 1 <= 3) by lia.
  destruct (terrain_grid_vertices series_libm 3 H) as (x & zg & m & Hx & _).
  exact (conj H (ex_intro _ x Hx)).
Defined.

(** ** Every stage of the terrain is a mesh of its own *)

Lemma face_between_mono (lo lo' hi hi' : Z) (f : face) :
  lo' <= lo -> hi <= hi' -> face_between lo hi f -> face_between lo' hi' f.
Proof. destruct f as [[a b] c]. unfold face_between. lia. Qed.

Lemma adds_of_extends (lo dv : Z) (m m' : mesh) (fs : list face) :
  extends m m' dv fs -> Forall (face_between lo (nv m + dv)) fs ->
  adds_from lo dv (len fs) m m'.
Proof. intros E H. exists fs. split; [exact E |]. now split. Qed.

Lemma adds_refl (lo : Z) (m : mesh) : adds_from lo 0 0 m m.
Proof. apply (adds_of_extends lo 0 m m []); [apply extends_refl | constructor]. Qed.

Lemma adds_trans (lo d1 f1 d2 f2 : Z) (m1 m2 m3 : mesh) :
  adds_from lo d1 f1 m1 m2 -> adds_from lo d2 f2 m2 m3 ->
  adds_from lo (d1 + d2) (f1 + f2) m1 m3.
Proof.
  intros (fs1 & E1 & L1 & B1) (fs2 & E2 & L2 & B2).
  exists (fs1 ++ fs2).
  split; [exact (extends_trans _ _ _ _ _ _ _ E1 E2) |].
  split; [rewrite len_app; lia |].
  destruct E1 as (H0 & H1 & _). destruct E2 as (H2 & _).
  fold (nv m1) (nv m2) in *.
  apply Forall_app. split.
  - eapply Forall_impl; [| exact B1]. intros f.
    apply face_between_mono; lia.
  - eapply Forall_impl; [| exact B2]. intros f.
    apply face_between_mono; lia.
Qed.

Lemma adds_eq (lo dv df dv' df' : Z) (m m' : mesh) :
  adds_from lo dv df m m' -> dv = dv' -> df = df' -> adds_from lo dv' df' m m'.
Proof. now intros H <- <-. Qed.

Lemma adds_weaken (lo lo' dv df : Z) (m m' : mesh) :
  lo <= lo' -> adds_from lo' dv df m m' -> adds_from lo dv df m m'.
Proof.
  intros Hlo (fs & E & Hl & B). exists fs. split; [exact E |].
  split; [exact Hl |]. eapply Forall_impl; [| exact B]. intros f.
  apply face_between_mono; lia.
Qed.

Lemma adds_nv (lo dv df : Z) (m m' : mesh) :
  adds_from lo dv df m m' -> 0 <= dv /\ nv m' = nv m + dv.
Proof. intros (fs & (H0 & H1 & _) & _). now split. Qed.

Lemma adds_append_vertex (lo : Z) (p : point) (m : mesh) :
  adds_from lo 1 0 m (append_vertex p m).
Proof.
  apply (adds_of_extends lo 1 m _ []);
    [apply extends_append_vertex | constructor].
Qed.

Lemma adds_append_face (lo : Z) (f : face) (m : mesh) :
  face_between lo (nv m) f -> adds_from lo 0 1 m (append_face f m).
Proof.
  intros H. apply (adds_of_extends lo 0 m _ [f]);
    [apply extends_append_face |].
  constructor; [| constructor]. now rewrite Z.add_0_r.
Qed.

(** A loop whose every iteration appends a mesh of its own. *)
Lemma for_adds {A : Type} (dv df : Z) (l : list A)
    (body : A -> mesh -> mesh) :
  (forall x m, In x l -> adds_from (nv m) dv df m (body x m)) ->
  forall m, adds_from (nv m) (dv * len l) (df * len l) m (for_ l body m).
Proof.
  induction l as [| x l IH]; intros Hbody m.
  - rewrite for_nil. len_norm. eapply adds_eq; [apply adds_refl | lia | lia].
  - rewrite for_cons, len_cons.
    pose proof (Hbody x m (or_introl eq_refl)) as H1.
    pose proof (IH (fun y u Hy => Hbody y u (or_intror Hy)) (body x m)) as H2.
    destruct (adds_nv _ _ _ _ _ H1) as [Hdv Hnv].
    assert (Hle : nv m <= nv (body x m)) by lia.
    eapply adds_eq;
      [exact (adds_trans _ _ _ _ _ _ _ _ H1
                (adds_weaken (nv m) (nv (body x m)) _ _ _ _ Hle H2))
      | lia | lia].
Qed.

Lemma for_M_faces_from {A : Type} (F : A -> face) (l : list A)
    (body : A -> mesh -> result mesh) (lo n : Z) :
  (forall x m, In x l -> body x m = Ok (append_face (F x) m)) ->
  (forall x, In x l -> face_between lo n (F x)) ->
  forall m, nv m = n ->
  exists m', for_M l body m = Ok m' /\ adds_from lo 0 (len l) m m'.
Proof.
  induction l as [| x l IH]; intros Hbody HF m Hm.
  - exists m. split; [reflexivity | apply adds_refl].
  - simpl. rewrite Hbody by now left. cbn [bind].
    assert (G1 : adds_from lo 0 1 m (append_face (F x) m)).
    { apply adds_append_face. rewrite Hm. apply HF. now left. }
    destruct (IH (fun y u Hy => Hbody y u (or_intror Hy))
                (fun y Hy => HF y (or_intror Hy)) (append_face (F x) m))
      as [m' [Hm' G2]].
    { destruct (adds_nv _ _ _ _ _ G1) as [_ ->]. lia. }
    exists m'. split; [exact Hm' |]. rewrite len_cons.
    eapply adds_eq; [exact (adds_trans _ _ _ _ _ _ _ _ G1 G2) | lia | lia].
Qed.

Lemma adds_of_grows_vertices (lo dv : Z) (m m' : mesh) :
  grows dv 0 m m' -> adds_from lo dv 0 m m'.
Proof.
  intros (fs & E & Hl & _). destruct fs as [| f fs].
  - exists []. split; [exact E |]. split; [reflexivity | constructor].
  - rewrite len_cons in Hl. pose proof (len_nonneg fs). lia.
Qed.

Section TerrainLocal.

Variable L : libm.

Lemma corner_marker_adds (c : point) (m : mesh) :
  adds_from (nv m) 8 12 m (corner_marker c m).
Proof.
  destruct c as [[cx cy] cz]. unfold corner_marker. cbv zeta.
  match goal with
  | |- context [for_ ?vs append_vertex m] =>
      change (adds_from (nv m) (len vs) (len (map (shift_face (nv m))
                                                 marker_faces)) m
                (axis_marker vs marker_faces (nv m) m));
      apply (adds_of_extends (nv m) (len vs) m _ _
               (axis_marker_extends vs marker_faces m))
  end.
  apply shifted_between. apply marker_faces_ok.
Qed.

Lemma corner_markers_adds (zg : ndarray) (width : Z) (m : mesh) :
  shape zg = (width, width) -> 1 <= width ->
  exists m', corner_markers zg m = Ok m' /\ adds_from (nv m) 32 48 m m'.
Proof.
  intros Hz Hw. unfold corner_markers.
  destruct (np_item_ok zg 0 0) as [z1 ->]; [rewrite Hz; simpl; lia .. |].
  destruct (np_item_ok zg 0 (-1)) as [z2 ->]; [rewrite Hz; simpl; lia .. |].
  destruct (np_item_ok zg (-1) 0) as [z3 ->]; [rewrite Hz; simpl; lia .. |].
  destruct (np_item_ok zg (-1) (-1)) as [z4 ->];
    [rewrite Hz; simpl; lia .. |].
  cbn [bind]. eexists. split; [reflexivity |].
  eapply adds_eq;
    [apply for_adds; intros c u _; apply corner_marker_adds
    | reflexivity | reflexivity].
Qed.

Lemma axis_lines_adds (zg : ndarray) (width : Z) (m : mesh) :
  shape zg = (width, width) -> 1 <= width ->
  exists m', axis_lines zg width width m = Ok m'
             /\ adds_from (nv m) 8 4 m m'.
Proof.
  intros Hz Hw. unfold axis_lines. cbv zeta.
  pose proof (half_in_range width Hw) as Hhalf.
  destruct (np_item_ok zg (width / 2) 0) as [z1 ->];
    [rewrite Hz; cbn [fst snd]; lia .. |].
  destruct (np_item_ok zg (width / 2) (-1)) as [z2 ->];
    [rewrite Hz; cbn [fst snd]; lia .. |].
  destruct (np_item_ok zg 0 (width / 2)) as [z3 ->];
    [rewrite Hz; cbn [fst snd]; lia .. |].
  destruct (np_item_ok zg (-1) (width / 2)) as [z4 ->];
    [rewrite Hz; cbn [fst snd]; lia .. |].
  cbn [bind]. eexists. split; [reflexivity |].
  pose proof (nv_nonneg m) as Hm.
  exists [ (nv m, nv m + 1, nv m + 2); (nv m + 1, nv m + 3, nv m + 2);
           (nv m + 4, nv m + 4 + 1, nv m + 4 + 2);
           (nv m + 4 + 1, nv m + 4 + 3, nv m + 4 + 2) ].
  unfold nv in *. unfold append_face, append_vertex.
  cbn [vertices faces]. len_norm.
  split; [| split; [reflexivity |]].
  - split; [lia |]. split; [lia |]. rewrite <- !app_assoc. cbn [app].
    f_equal.
    repeat match goal with
           | |- _ :: _ = _ :: _ => f_equal
           | |- (_, _) = (_, _) => f_equal
           end; lia.
  - repeat apply Forall_cons; try apply Forall_nil;
      unfold face_between; lia.
Qed.

Lemma central_arrow_adds (zg : ndarray) (width : Z) (m : mesh) :
  shape zg = (width, width) -> 1 <= width ->
  exists m', central_arrow L zg width width m = Ok m'
             /\ adds_from (nv m) 22 40 m m'.
Proof.
  intros Hz Hw. unfold central_arrow. cbv zeta.
  pose proof (half_in_range width Hw) as Hhalf.
  destruct (np_item_ok zg (width / 2) (width / 2)) as [z ->];
    [rewrite Hz; cbn [fst snd]; lia .. |].
  cbn [bind].
  set (m1 := append_vertex _ m).
  match goal with
  | |- context [for_ (range 20) ?b (m1, [])] =>
      destruct (base_loop (range 20) b) with (m := m1) (idx := @nil Z)
        as [m2 [Hloop G2]]
  end.
  { intros i u idx. eexists. reflexivity. }
  rewrite Hloop. cbn [app]. cbv beta iota. clear Hloop.
  change (len (range 20)) with 20 in *.
  set (m3 := append_vertex _ m2).
  assert (G1 : adds_from (nv m) 1 0 m m1) by apply adds_append_vertex.
  assert (G3 : adds_from (nv m) 1 0 m2 m3) by apply adds_append_vertex.
  pose proof (adds_of_grows_vertices (nv m) _ _ _ G2) as G2'.
  destruct (adds_nv _ _ _ _ _ G1) as [_ N1].
  destruct (adds_nv _ _ _ _ _ G2') as [_ N2].
  destruct (adds_nv _ _ _ _ _ G3) as [_ N3].
  pose proof (nv_nonneg m) as N0.
  fold (nv m) (nv m2).
  assert (Hfan : forall c, nv m <= c < nv m + 22 ->
            forall i, In i (range 20) ->
              face_between (nv m) (nv m + 22)
                (c, nv m1 + i, nv m1 + (i + 1) mod 20)).
  { intros c Hc i Hi. apply in_range in Hi.
    pose proof (Z.mod_pos_bound (i + 1) 20 ltac:(lia)).
    unfold face_between. lia. }
  assert (Hbody : forall c i (u : mesh), In i (range 20) ->
            (a <- np_getitem (map (Z.add (nv m1)) (range 20)) i ;;
             b <- np_getitem (map (Z.add (nv m1)) (range 20))
                    ((i + 1) mod 20) ;;
             Ok (append_face (c, a, b) u))
            = Ok (append_face (c, nv m1 + i, nv m1 + (i + 1) mod 20) u)).
  { intros c i u Hi. apply in_range in Hi.
    pose proof (Z.mod_pos_bound (i + 1) 20 ltac:(lia)).
    now rewrite !np_getitem_map_range by lia. }
  match goal with
  | |- context [for_M (range 20) ?b m3] =>
      destruct (for_M_faces_from
                  (fun i => (nv m, nv m1 + i, nv m1 + (i + 1) mod 20))
                  (range 20) b (nv m) (nv m + 22)) with (m := m3)
        as [m4 [H4 G4]]
  end.
  { intros i u Hi. now apply Hbody. }
  { intros i Hi. apply Hfan; [lia | exact Hi]. }
  { lia. }
  rewrite H4. cbn [bind].
  destruct (adds_nv _ _ _ _ _ G4) as [_ N4].
  match goal with
  | |- context [for_M (range 20) ?b m4] =>
      destruct (for_M_faces_from
                  (fun i => (nv m2, nv m1 + i, nv m1 + (i + 1) mod 20))
                  (range 20) b (nv m) (nv m + 22)) with (m := m4)
        as [m5 [H5 G5]]
  end.
  { intros i u Hi. now apply Hbody. }
  { intros i Hi. apply Hfan; [lia | exact Hi]. }
  { lia. }
  exists m5. split; [exact H5 |].
  change (len (range 20)) with 20 in *.
  eapply adds_eq;
    [exact (adds_trans _ _ _ _ _ _ _ _
              (adds_trans _ _ _ _ _ _ _ _
                 (adds_trans _ _ _ _ _ _ _ _
                    (adds_trans _ _ _ _ _ _ _ _ G1 G2') G3) G4) G5)
    | reflexivity | reflexivity].
Qed.

End TerrainLocal.

(** X10 (the stages of the terrain do not share vertices): for
    [width = height = n >= 1] the faces of the mesh are, in this order,
    those of the grid, of the four pylons, of the arrow and of the two axis
    lines; the grid faces index the [n * n] grid vertices, and the faces of
    each later stage index only the vertices that stage appended: 32 for
    the pylons, 22 for the arrow and 8 for the axis lines. *)
Theorem terrain_stages_disjoint (L : libm) (n : Z) :
  1 <= n ->
  exists m fg fp fa fl,
    terrain_mesh L n n = Ok m
    /\ faces m = fg ++ fp ++ fa ++ fl
    /\ (fg = flat_map (fun i => flat_map (fun j => cell_faces n i j)
                                  (range (n - 1))) (range (n - 1))
        /\ Forall (face_between 0 (n * n)) fg)
    /\ (len fp = 48 /\ Forall (face_between (n * n) (n * n + 32)) fp)
    /\ (len fa = 40 /\ Forall (face_between (n * n + 32) (n * n + 54)) fa)
    /\ (len fl = 4 /\ Forall (face_between (n * n + 54) (n * n + 62)) fl).
Proof.
  intros Hn. unfold terrain_mesh.
  destruct (terrain_body_square L n ltac:(lia))
    as (zg & m1 & -> & Hz & F1 & G1).
  cbn [bind].
  pose proof (grows_nv _ _ _ _ G1) as N1. change (nv empty_mesh) with 0 in N1.
  destruct (corner_markers_adds zg n m1 Hz Hn)
    as [m2 [-> (fp & (_ & N2 & F2) & L2 & B2)]].
  cbn [bind].
  destruct (central_arrow_adds L zg n m2 Hz Hn)
    as [m3 [-> (fa & (_ & N3 & F3) & L3 & B3)]].
  cbn [bind].
  destruct (axis_lines_adds zg n m3 Hz Hn)
    as [m4 [-> (fl & (_ & N4 & F4) & L4 & B4)]].
  fold (nv m1) (nv m2) (nv m3) (nv m4) in *.
  exists m4, (grid_cells n n), fp, fa, fl. split; [reflexivity |].
  split; [rewrite F4, F3, F2, F1; now rewrite <- !app_assoc |].
  split.
  { split; [reflexivity |].
    eapply Forall_impl; [| apply (grid_cells_in_range n n)].
    intros [[a b] c]. unfold face_in_range, face_between. lia. }
  split.
  { split; [exact L2 |]. eapply Forall_impl; [| exact B2]. intros f.
    apply face_between_mono; lia. }
  split.
  { split; [exact L3 |]. eapply Forall_impl; [| exact B3]. intros f.
    apply face_between_mono; lia. }
  split; [exact L4 |]. eapply Forall_impl; [| exact B4]. intros f.
  apply face_between_mono; lia.
Qed.

Lemma terrain_stages_disjoint_witness :
  1 <= 3 /\ exists m, terrain_mesh series_libm 3 3 = Ok m.
Proof.
  assert (H : 1 <= 3) by lia.
  destruct (terrain_stages_disjoint series_libm 3 H)
    as (m & fg & fp & fa & fl & Hm & _).
  exact (conj H (ex_intro _ m Hm)).
Defined.

(** ** The command line *)

